(** * Secure_chain: the hash-linked activity log of [local-backend/index.js]

    A shallow embedding of the watcher script (block creation, the
    activity-log listener, the collection clearing utility) and of the
    dashboard's derivation of the current file list, together with the
    theorems that settle the properties claimed for them. *)

From Stdlib Require Import ZArith List String Ascii Bool Lia Arith.
From Stdlib Require Import Sorting.Sorted Sorting.Permutation.
From Stdlib Require Import DecimalString.
From Stdlib Require Import SpecFloat QArith Qround Qabs.
From Equations Require Import Equations.
Import ListNotations.

Close Scope Q_scope.

Set Warnings "-register-all".

Local Open Scope list_scope.
Local Open Scope string_scope.

(* ===================================================================== *)
(** ** crypto-js: [SHA256(message).toString()]

    [crypto.SHA256(str)] encodes the string as UTF-8, runs SHA-256
    (FIPS 180-4) over the bytes and [toString()] prints the eight 32-bit
    words of the digest in lowercase hexadecimal.  A [string] here is the
    UTF-8 byte sequence of the JavaScript string. *)

Module CryptoJS.

Local Open Scope Z_scope.
Local Open Scope list_scope.

Definition wrap32 (x : Z) : Z := x mod 2 ^ 32.

Definition add32 (x y : Z) : Z := wrap32 (x + y).

(** [x >>> n | x << (32 - n)] on an unsigned 32-bit word. *)
Definition rotr (n x : Z) : Z :=
  Z.lor (Z.shiftr x n) (wrap32 (Z.shiftl x (32 - n))).

Definition not32 (x : Z) : Z := Z.lxor x 0xffffffff.

Definition ch (e f g : Z) : Z := Z.lxor (Z.land e f) (Z.land (not32 e) g).

Definition maj (a b c : Z) : Z :=
  Z.lxor (Z.lxor (Z.land a b) (Z.land a c)) (Z.land b c).

Definition sigma0 (a : Z) : Z := Z.lxor (Z.lxor (rotr 2 a) (rotr 13 a)) (rotr 22 a).

Definition sigma1 (e : Z) : Z := Z.lxor (Z.lxor (rotr 6 e) (rotr 11 e)) (rotr 25 e).

Definition gamma0 (x : Z) : Z := Z.lxor (Z.lxor (rotr 7 x) (rotr 18 x)) (Z.shiftr x 3).

Definition gamma1 (x : Z) : Z := Z.lxor (Z.lxor (rotr 17 x) (rotr 19 x)) (Z.shiftr x 10).

(** The constants are derived as the library derives them when it is
    loaded: from the first 64 primes, the first 32 bits of the fractional
    part of the cube root (round constants [K]) and, for the first eight,
    of the square root (initial value [H]). *)
Definition isPrime (n : nat) : bool :=
  forallb (fun factor => negb (Nat.eqb (n mod factor) 0))
          (filter (fun factor => Nat.leb (factor * factor) n) (seq 2 n)).

Definition primes64 : list Z :=
  map Z.of_nat (firstn 64 (filter isPrime (seq 2 400))).

(** Greatest [r] below [2 ^ bits] with [r ^ 3 <= n], found bit by bit. *)
Fixpoint cubeRootBits (bits : nat) (n r : Z) : Z :=
  match bits with
  | O => r
  | S k =>
      let r' := r + 2 ^ Z.of_nat k in
      cubeRootBits k n (if r' * r' * r' <=? n then r' else r)
  end.

Definition fractionalBitsCbrt (p : Z) : Z := wrap32 (cubeRootBits 36 (p * 2 ^ 96) 0).
Definition fractionalBitsSqrt (p : Z) : Z := wrap32 (Z.sqrt (p * 2 ^ 64)).

Definition K : list Z := Eval vm_compute in map fractionalBitsCbrt primes64.

(** The eight working words [a .. h] / the chaining value [H]. *)
Record Words8 : Type := mkWords8
  { va : Z; vb : Z; vc : Z; vd : Z; ve : Z; vf : Z; vg : Z; vh : Z }.

Definition H_init : Words8 :=
  Eval vm_compute in
    let h := fun i => fractionalBitsSqrt (nth i primes64 0) in
    mkWords8 (h 0%nat) (h 1%nat) (h 2%nat) (h 3%nat)
             (h 4%nat) (h 5%nat) (h 6%nat) (h 7%nat).

(** Message schedule: [W] holds the words computed so far, the 16 words
    of the block first; each step appends
    [gamma0 W[i-15] + W[i-7] + gamma1 W[i-2] + W[i-16]]. *)
Definition nthW (W : list Z) (i : nat) : Z := nth i W 0.

Fixpoint extendW (steps : nat) (W : list Z) : list Z :=
  match steps with
  | O => W
  | S steps' =>
      let i := List.length W in
      let w := add32 (add32 (add32 (gamma0 (nthW W (i - 15))) (nthW W (i - 7)))
                            (gamma1 (nthW W (i - 2))))
                     (nthW W (i - 16)) in
      extendW steps' (W ++ [w])
  end.

Definition schedule (M : list Z) : list Z := extendW 48 (firstn 16 M).

Definition round (s : Words8) (kw : Z * Z) : Words8 :=
  let (k, w) := kw in
  let t1 := add32 (add32 (add32 (add32 (vh s) (sigma1 (ve s)))
                                (ch (ve s) (vf s) (vg s))) k) w in
  let t2 := add32 (sigma0 (va s)) (maj (va s) (vb s) (vc s)) in
  mkWords8 (add32 t1 t2) (va s) (vb s) (vc s)
           (add32 (vd s) t1) (ve s) (vf s) (vg s).

Definition doProcessBlock (H : Words8) (M : list Z) : Words8 :=
  let s := fold_left round (combine K (schedule M)) H in
  mkWords8 (add32 (va H) (va s)) (add32 (vb H) (vb s))
           (add32 (vc H) (vc s)) (add32 (vd H) (vd s))
           (add32 (ve H) (ve s)) (add32 (vf H) (vf s))
           (add32 (vg H) (vg s)) (add32 (vh H) (vh s)).

Fixpoint processBlocks (nblocks : nat) (H : Words8) (ws : list Z) : Words8 :=
  match nblocks with
  | O => H
  | S n => processBlocks n (doProcessBlock H ws) (skipn 16 ws)
  end.

(** Big-endian packing of bytes into 32-bit words. *)
Fixpoint wordsOfBytes (bs : list Z) : list Z :=
  match bs with
  | b0 :: b1 :: b2 :: b3 :: rest =>
      (b0 * 2 ^ 24 + b1 * 2 ^ 16 + b2 * 2 ^ 8 + b3) :: wordsOfBytes rest
  | _ => []
  end.

Definition bytesOfString (s : string) : list Z :=
  map (fun c => Z.of_N (N_of_ascii c)) (list_ascii_of_string s).

(** Padding: a [0x80] byte, zero bytes up to 56 modulo 64, then the
    message length in bits as a 64-bit big-endian integer. *)
Definition be64 (n : Z) : list Z :=
  map (fun i => (n / 2 ^ (8 * (7 - Z.of_nat i))) mod 256) (seq 0 8).

Definition pad (bs : list Z) : list Z :=
  let len := Z.of_nat (List.length bs) in
  bs ++ [0x80] ++ repeat 0 (Z.to_nat ((55 - len) mod 64)) ++ be64 (8 * len).

Definition finalize (bs : list Z) : Words8 :=
  let ws := wordsOfBytes (pad bs) in
  processBlocks (List.length ws / 16) H_init ws.

(** Hex encoder ([CryptoJS.enc.Hex.stringify]). *)
Definition hexDigit (n : Z) : ascii :=
  nth (Z.to_nat (n mod 16))
      (list_ascii_of_string "0123456789abcdef") "0"%char.

Definition hexWord (w : Z) : list ascii :=
  [ hexDigit (w / 16 ^ 7); hexDigit (w / 16 ^ 6); hexDigit (w / 16 ^ 5);
    hexDigit (w / 16 ^ 4); hexDigit (w / 16 ^ 3); hexDigit (w / 16 ^ 2);
    hexDigit (w / 16); hexDigit w ].

Definition hexStringify (H : Words8) : string :=
  string_of_list_ascii
    (hexWord (va H) ++ hexWord (vb H) ++ hexWord (vc H) ++ hexWord (vd H) ++
     hexWord (ve H) ++ hexWord (vf H) ++ hexWord (vg H) ++ hexWord (vh H)).

(** [crypto.SHA256(message).toString()] *)
Definition SHA256 (message : string) : string :=
  hexStringify (finalize (bytesOfString message)).

End CryptoJS.


(* ===================================================================== *)
(** ** JSON values and [JSON.stringify]

    The activity payload is whatever [change.doc.data()] returns; what the
    watcher does with it is to hand it to [JSON.stringify].  A payload is
    modelled as the JSON tree that [JSON.stringify] walks: object members
    are kept in enumeration order, numbers are JavaScript Numbers. *)

(** A JavaScript Number is an IEEE 754 binary64 value: a signed zero, a
    signed infinity, NaN, or [(-1)^s * m * 2^e] with [m] below [2^53] and
    [e] between [-1074] and [971], [m] having 53 bits unless [e] is
    [-1074]. *)
Definition Number : Type := spec_float.

(** The Number of an integer ([Date.now()], an integer literal): the
    nearest binary64 value, which is the integer itself up to [2^53] in
    magnitude. *)
Definition Number_ofInteger (n : Z) : Number := binary_normalize 53 1024 n 0 false.

Coercion Number_ofInteger : Z >-> Number.

Definition isFinite (x : Number) : bool :=
  match x with
  | S754_nan | S754_infinity _ => false
  | _ => true
  end.

Inductive JSON : Type :=
| JNull
| JBool (b : bool)
| JNum (n : Number)
| JStr (s : string)
| JArr (items : list JSON)
| JObj (members : list (string * JSON)).

Arguments JNum n%_Z.

Definition dquote : ascii := "034"%char.
Definition backslash : ascii := "092"%char.

Definition str1 (c : ascii) : string := String c EmptyString.

(** One character of [QuoteJSONString]: the quote and the backslash are
    escaped, control characters get their short escape or [\u00xx]. *)
Definition quoteChar (c : ascii) : string :=
  let n := nat_of_ascii c in
  if Nat.eqb n 34 then String backslash (str1 dquote)
  else if Nat.eqb n 92 then String backslash (str1 backslash)
  else if Nat.eqb n 8 then String backslash "b"
  else if Nat.eqb n 9 then String backslash "t"
  else if Nat.eqb n 10 then String backslash "n"
  else if Nat.eqb n 12 then String backslash "f"
  else if Nat.eqb n 13 then String backslash "r"
  else if Nat.ltb n 32 then
    String backslash
      ("u00" ++ String (CryptoJS.hexDigit (Z.of_nat n / 16))
                       (str1 (CryptoJS.hexDigit (Z.of_nat n))))
  else str1 c.

Fixpoint quoteChars (s : string) : string :=
  match s with
  | EmptyString => EmptyString
  | String c rest => quoteChar c ++ quoteChars rest
  end.

Definition quoteJSONString (s : string) : string :=
  String dquote (quoteChars s ++ str1 dquote).

(** [Number::toString(x)] for radix 10, by the steps of the language
    definition. *)
Module NumberToString.

#[local] Open Scope Z_scope.

Definition pow10 (n : Z) : Q := Qpower (10 # 1) n.
Definition pow2 (n : Z) : Q := Qpower (2 # 1) n.

Definition Qlt_bool (a b : Q) : bool := negb (Qle_bool b a).

(** The real number [m * 2^e]. *)
Definition valueOf (m : positive) (e : Z) : Q := Qmult (inject_Z (Zpos m)) (pow2 e).

(** [roundsTo m e q]: the real [q] is read as the Number [m * 2^e], that
    is, it lies between the midpoints to the two neighbouring Numbers, the
    midpoints included when [m] is even.  The neighbour below is half as
    far when [m] is [2^52] and the value is not the least normal one. *)
Definition roundsTo (m : positive) (e : Z) (q : Q) : bool :=
  let v := valueOf m e in
  let above := pow2 (e - 1) in
  let below := if Pos.eqb m (2 ^ 52) && Z.ltb (-1074) e
               then pow2 (e - 2) else pow2 (e - 1) in
  let lo := Qminus v below in
  let hi := Qplus v above in
  if Z.even (Zpos m)
  then Qle_bool lo q && Qle_bool q hi
  else Qlt_bool lo q && Qlt_bool q hi.

(** The [n] with [10^(n-1) <= v < 10^n], reached from an estimate that
    is off by two at most. *)
Fixpoint settle (fuel : nat) (v : Q) (n : Z) : Z :=
  match fuel with
  | O => n
  | S fuel' =>
      if Qle_bool (pow10 n) v then settle fuel' v (n + 1)
      else if Qlt_bool v (pow10 (n - 1)) then settle fuel' v (n - 1)
      else n
  end.

Definition magnitude (m : positive) (e : Z) : Z :=
  let bits := Zpos (digits2_pos m) + e in
  settle 8 (valueOf m e) ((bits - 1) * 30103 / 100000 + 1).

(** The decimals [s * 10^(n-k)] with [10^(k-1) <= s < 10^k] that are
    read as [m * 2^e]; on each scale only the two nearest to the value
    matter. *)
Definition candidates (m : positive) (e : Z) (k : Z) : list (Z * Z) :=
  let v := valueOf m e in
  let nv := magnitude m e in
  flat_map
    (fun n =>
       let s0 := Qfloor (Qdiv v (pow10 (n - k))) in
       filter (fun sn : Z * Z =>
                 let (s, _) := sn in
                 (10 ^ (k - 1) <=? s) && (s <? 10 ^ k)
                 && roundsTo m e (Qmult (inject_Z s) (pow10 (n - k))))
              [(s0, n); (s0 + 1, n)])
    [nv; nv + 1].

Definition distance (m : positive) (e : Z) (k : Z) (sn : Z * Z) : Q :=
  let (s, n) := sn in
  Qabs (Qminus (Qmult (inject_Z s) (pow10 (n - k))) (valueOf m e)).

(** The candidate closest to the value; of two equally close, the one
    with [s] even. *)
Definition closer (m : positive) (e : Z) (k : Z) (a b : Z * Z) : Z * Z :=
  match Qcompare (distance m e k a) (distance m e k b) with
  | Lt => a
  | Gt => b
  | Eq => if Z.even (fst a) then a else b
  end.

(** Step 5: integers [n], [k] and [s] with [k >= 1],
    [10^(k-1) <= s < 10^k], [s * 10^(n-k)] read as the Number, and [k] as
    small as possible.  Seventeen digits identify every Number, so the
    search ends before its bound. *)
Fixpoint shortestFrom (fuel : nat) (m : positive) (e : Z) (k : Z) : Z * Z * Z :=
  match candidates m e k with
  | c :: cs => let (s, n) := fold_left (closer m e k) cs c in (n, k, s)
  | [] =>
      match fuel with
      | O => (magnitude m e, k, 0)
      | S fuel' => shortestFrom fuel' m e (k + 1)
      end
  end.

Definition shortest (m : positive) (e : Z) : Z * Z * Z := shortestFrom 17 m e 1.

Definition digitsOf (s : Z) : string := NilZero.string_of_uint (N.to_uint (Z.to_N s)).

Fixpoint zeros (n : nat) : string :=
  match n with
  | O => EmptyString
  | S n' => String "0" (zeros n')
  end.

(** Steps 6 to 11: plain digits for [-5 <= n <= 21], exponent form
    otherwise. *)
Definition format (n k : Z) (digits : string) : string :=
  if (-5 <=? n) && (n <=? 21) then
    if k <=? n then digits ++ zeros (Z.to_nat (n - k))
    else if 0 <? n then
      substring 0 (Z.to_nat n) digits ++ "."
        ++ substring (Z.to_nat n) (Z.to_nat (k - n)) digits
    else "0." ++ zeros (Z.to_nat (- n)) ++ digits
  else
    let exponentSign := if n <? 0 then "-" else "+" in
    let exponent := digitsOf (Z.abs (n - 1)) in
    if k =? 1 then digits ++ "e" ++ exponentSign ++ exponent
    else substring 0 1 digits ++ "." ++ substring 1 (Z.to_nat (k - 1)) digits
         ++ "e" ++ exponentSign ++ exponent.

End NumberToString.

(** Steps 1 to 4: NaN, the zeros, the sign and the infinities. *)
Definition numberToString (x : Number) : string :=
  match x with
  | S754_nan => "NaN"
  | S754_zero _ => "0"
  | S754_infinity s => if s then "-Infinity" else "Infinity"
  | S754_finite s m e =>
      let '(n, k, d) := NumberToString.shortest m e in
      (if s then "-" else "")
        ++ NumberToString.format n k (NumberToString.digitsOf d)
  end.

Fixpoint join (sep : string) (parts : list string) : string :=
  match parts with
  | [] => EmptyString
  | [p] => p
  | p :: rest => p ++ sep ++ join sep rest
  end.

Fixpoint JSON_stringify (value : JSON) : string :=
  match value with
  | JNull => "null"
  | JBool true => "true"
  | JBool false => "false"
  | JNum n => if isFinite n then numberToString n else "null"
  | JStr s => quoteJSONString s
  | JArr items => "[" ++ join "," (map JSON_stringify items) ++ "]"
  | JObj members =>
      "{" ++ join "," (map (fun kv : string * JSON =>
                              let (k, v) := kv in
                              quoteJSONString k ++ ":" ++ JSON_stringify v)
                           members) ++ "}"
  end.

(** Property read [obj.key]; [None] is [undefined]. *)
Fixpoint lookupMember (key : string) (members : list (string * JSON)) : option JSON :=
  match members with
  | [] => None
  | (k, v) :: rest => if String.eqb k key then Some v else lookupMember key rest
  end.

Definition getProp (obj : JSON) (key : string) : option JSON :=
  match obj with
  | JObj members => lookupMember key members
  | _ => None
  end.

(* ===================================================================== *)
(** ** Blocks and the [blockchain] collection *)

(** The object literal [{timestamp, activity, previousHash}] built at
    lines 48-52, before it receives its [hash] property. *)
Record NewBlock : Type := mkNewBlock
  { nb_timestamp : Z;
    nb_activity : JSON;
    nb_previousHash : string }.

(** The block as stored: the same object after [newBlock.hash = blockHash]. *)
Record Block : Type := mkBlock
  { timestamp : Z;
    activity : JSON;
    previousHash : string;
    hash : string }.

(** What [JSON.stringify(newBlock)] walks at line 54: the three
    properties in the order of the literal. *)
Definition objectOfNewBlock (nb : NewBlock) : JSON :=
  JObj [ ("timestamp", JNum (nb_timestamp nb));
         ("activity", nb_activity nb);
         ("previousHash", JStr (nb_previousHash nb)) ].

(** [crypto.SHA256(JSON.stringify(newBlock)).toString()] *)
Definition blockHashOf (nb : NewBlock) : string :=
  CryptoJS.SHA256 (JSON_stringify (objectOfNewBlock nb)).

(** [newBlock.hash = blockHash] *)
Definition setHash (nb : NewBlock) (blockHash : string) : Block :=
  mkBlock (nb_timestamp nb) (nb_activity nb) (nb_previousHash nb) blockHash.

(** The three properties a stored block was hashed from. *)
Definition contentOf (b : Block) : NewBlock :=
  mkNewBlock (timestamp b) (activity b) (previousHash b).

(** A document of the collection: its id and its data. *)
Definition DocId : Type := string.
Definition Doc : Type := (DocId * Block)%type.

(** *** Firestore queries on the collection

    [orderBy("timestamp", dir)] orders by the [timestamp] field and, for
    equal timestamps, by document id in the same direction; [limit(n)]
    keeps the first [n] documents. *)
Inductive Direction : Type := Asc | Desc.

Definition doc_leb (a b : Doc) : bool :=
  match Z.compare (timestamp (snd a)) (timestamp (snd b)) with
  | Lt => true
  | Gt => false
  | Eq => String.leb (fst a) (fst b)
  end.

Definition comesFirst (dir : Direction) (a b : Doc) : bool :=
  match dir with
  | Asc => doc_leb a b
  | Desc => doc_leb b a
  end.

Fixpoint insertDoc (dir : Direction) (d : Doc) (l : list Doc) : list Doc :=
  match l with
  | [] => [d]
  | x :: rest => if comesFirst dir d x then d :: l else x :: insertDoc dir d rest
  end.

Definition orderBy (dir : Direction) (docs : list Doc) : list Doc :=
  fold_right (insertDoc dir) [] docs.

Definition limit (n : nat) (docs : list Doc) : list Doc := firstn n docs.

(* ===================================================================== *)
(** ** The world the script runs in

    The script mutates the [blockchain] collection and writes to the
    console; the requests it sends to the store are recorded as well.
    What the outside decides (whether a request is rejected, the id given
    to a new document, the reading of the clock) is an input. *)

Definition Error : Type := string.

Inductive LogLine : Type :=
| LogNewActivity                        (* line 29 *)
| LogLastBlockFound (prefix : string)   (* line 43 *)
| LogGenesis                            (* line 45 *)
| LogBlockCreated (prefix : string)     (* line 56 *)
| LogBlockAdded                         (* line 59 *)
| LogErrorCreating (error : Error)      (* line 62, console.error *)
| LogWatching                           (* line 72 *)
| LogEncountered (err : Error).         (* line 86 *)

Inductive Request : Type :=
| ReqGetLatest             (* orderBy("timestamp","desc").limit(1).get() *)
| ReqAdd (b : Block).      (* blockchainRef.add(newBlock) *)

Record World : Type := mkWorld
  { blockchain : list Doc;
    console : list LogLine;
    requests : list Request }.

Definition emptyWorld : World := mkWorld [] [] [].

(** How an awaited promise settles. *)
Inductive Settled (A : Type) : Type :=
| Fulfilled (a : A)
| Rejected (e : Error).
Arguments Fulfilled {A} a.
Arguments Rejected {A} e.

(** Computations that change the world and either return or throw. *)
Definition M (A : Type) : Type := World -> Settled A * World.

Definition ret {A} (a : A) : M A := fun w => (Fulfilled a, w).

Definition throw {A} (e : Error) : M A := fun w => (Rejected e, w).

Definition bind {A B} (m : M A) (k : A -> M B) : M B :=
  fun w =>
    match m w with
    | (Fulfilled a, w') => k a w'
    | (Rejected e, w') => (Rejected e, w')
    end.

(** [try { body } catch (error) { handler }]: what the body did to the
    world before it threw stays done. *)
Definition tryCatch {A} (body : M A) (handler : Error -> M A) : M A :=
  fun w =>
    match body w with
    | (Fulfilled a, w') => (Fulfilled a, w')
    | (Rejected e, w') => handler e w'
    end.

Declare Scope js_scope.
Delimit Scope js_scope with js.
Notation "x <- m ;; k" := (bind m (fun x => k))
  (at level 61, m at next level, right associativity) : js_scope.
Notation "m ;; k" := (bind m (fun _ => k))
  (at level 61, right associativity) : js_scope.
Local Open Scope js_scope.

Definition exec {A} (m : M A) (w : World) : World := snd (m w).
Definition outcome {A} (m : M A) (w : World) : Settled A := fst (m w).

Definition consoleLog (l : LogLine) : M unit :=
  fun w => (Fulfilled tt, mkWorld (blockchain w) (console w ++ [l])%list (requests w)).

(** [await blockchainRef.orderBy("timestamp","desc").limit(1).get()].
    [fault] is the error the store answers with, if any. *)
Definition getLatest (fault : option Error) : M (list Doc) :=
  fun w =>
    let w' := mkWorld (blockchain w) (console w) (requests w ++ [ReqGetLatest])%list in
    match fault with
    | Some e => (Rejected e, w')
    | None => (Fulfilled (limit 1 (orderBy Desc (blockchain w))), w')
    end.

(** [await blockchainRef.add(newBlock)]: the store either rejects the
    write or stores the block under a new id. *)
Definition addDoc (answer : Settled DocId) (b : Block) : M unit :=
  fun w =>
    let reqs := (requests w ++ [ReqAdd b])%list in
    match answer with
    | Rejected e => (Rejected e, mkWorld (blockchain w) (console w) reqs)
    | Fulfilled id =>
        (Fulfilled tt, mkWorld (blockchain w ++ [(id, b)])%list (console w) reqs)
    end.

(** What the outside contributes to one run of [createNewBlock]. *)
Record Env : Type := mkEnv
  { getFault : option Error;     (* the latest-block query fails with it *)
    now : Z;                     (* Date.now() at line 49 *)
    addAnswer : Settled DocId }. (* how blockchainRef.add settles *)

(* ===================================================================== *)
(** ** [createNewBlock] (lines 28-64) *)

(** Lines 38-56: from the query result to the block to be added. *)
Definition linkBlock (clock : Z) (newActivityData : JSON)
    (lastBlockQuery : list Doc) : M Block :=
  previousHash <-
    match lastBlockQuery with
    | [] =>
        consoleLog LogGenesis ;; ret "0"
    | doc0 :: _ =>
        let lastBlock := snd doc0 in
        let previousHash := hash lastBlock in
        consoleLog (LogLastBlockFound (substring 0 10 previousHash)) ;;
        ret previousHash
    end ;;
  let newBlock := mkNewBlock clock newActivityData previousHash in
  let blockHash := blockHashOf newBlock in
  consoleLog (LogBlockCreated (substring 0 10 blockHash)) ;;
  ret (setHash newBlock blockHash).

(** Lines 58-59. *)
Definition storeBlock (answer : Settled DocId) (newBlock : Block) : M unit :=
  addDoc answer newBlock ;;
  consoleLog LogBlockAdded.

(** Lines 61-63. *)
Definition onError (error : Error) : M unit :=
  consoleLog (LogErrorCreating error).

Definition createNewBlock (env : Env) (newActivityData : JSON) : M unit :=
  consoleLog LogNewActivity ;;
  tryCatch
    (lastBlockQuery <- getLatest (getFault env) ;;
     newBlock <- linkBlock (now env) newActivityData lastBlockQuery ;;
     storeBlock (addAnswer env) newBlock)
    onError.

(* ===================================================================== *)
(** ** [watchActivityLog] (lines 69-88)

    [createNewBlock] is an async function that the listener calls without
    awaiting it: a call runs up to its first [await] (line 33) and the
    rest runs when the awaited request settles.  A call in flight is a
    task suspended at one of the two awaits. *)

Inductive Task : Type :=
| AwaitQuery (newActivityData : JSON)   (* suspended at line 33 *)
| AwaitAdd (newBlock : Block)           (* suspended at line 58 *)
| Finished.

(** What wakes a suspended task up. *)
Inductive Resume : Type :=
| QueryAnswered (fault : option Error) (clock : Z)
| AddAnswered (answer : Settled DocId).

(** The call itself: line 29, then the query of line 33 is on its way. *)
Definition startCreateNewBlock (newActivityData : JSON) : M Task :=
  consoleLog LogNewActivity ;; ret (AwaitQuery newActivityData).

(** The same [try]/[catch] as in [createNewBlock], cut at the awaits. *)
Definition resumeTask (r : Resume) (t : Task) : M Task :=
  match t, r with
  | AwaitQuery newActivityData, QueryAnswered fault clock =>
      tryCatch
        (lastBlockQuery <- getLatest fault ;;
         newBlock <- linkBlock clock newActivityData lastBlockQuery ;;
         ret (AwaitAdd newBlock))
        (fun error => onError error ;; ret Finished)
  | AwaitAdd newBlock, AddAnswered answer =>
      tryCatch
        (storeBlock answer newBlock ;; ret Finished)
        (fun error => onError error ;; ret Finished)
  | _, _ => ret t
  end.

Inductive ChangeType : Type := added | modified | removed.

Definition ActivityDoc : Type := (DocId * JSON)%type.

Record DocumentChange : Type := mkChange
  { change_type : ChangeType;
    change_doc : ActivityDoc }.

Definition isAdded (c : DocumentChange) : bool :=
  match change_type c with
  | added => true
  | _ => false
  end.

(** The watcher process: the world and the calls in flight. *)
Record Process : Type := mkProcess
  { world : World;
    tasks : list Task }.

(** Lines 77-84, one change. *)
Definition onChange (p : Process) (change : DocumentChange) : Process :=
  if isAdded change then
    let newActivity := snd (change_doc change) in
    match startCreateNewBlock newActivity (world p) with
    | (Fulfilled t, w) => mkProcess w (tasks p ++ [t])%list
    | (Rejected _, w) => mkProcess w (tasks p)
    end
  else p.

(** Lines 76-84: [querySnapshot.docChanges().forEach(...)]. *)
Definition onSnapshotCallback (docChanges : list DocumentChange) (p : Process) : Process :=
  fold_left onChange docChanges p.

Fixpoint replaceNth {A} (i : nat) (x : A) (l : list A) : list A :=
  match l, i with
  | [], _ => []
  | _ :: rest, O => x :: rest
  | y :: rest, S i' => y :: replaceNth i' x rest
  end.

(** Line 85-87: the listener's error callback. *)
Definition onListenError (err : Error) (p : Process) : Process :=
  mkProcess (exec (consoleLog (LogEncountered err)) (world p)) (tasks p).

(** What happens to the running script: the listener receives a snapshot
    or an error, or an awaited request of the [i]-th call settles. *)
Inductive Event : Type :=
| Snapshot (docChanges : list DocumentChange)
| ListenError (err : Error)
| Resumed (i : nat) (r : Resume).

Definition step (p : Process) (ev : Event) : Process :=
  match ev with
  | Snapshot docChanges => onSnapshotCallback docChanges p
  | ListenError err => onListenError err p
  | Resumed i r =>
      match nth_error (tasks p) i with
      | None => p
      | Some t =>
          match resumeTask r t (world p) with
          | (Fulfilled t', w) => mkProcess w (replaceNth i t' (tasks p))
          | (Rejected _, w) => mkProcess w (tasks p)
          end
      end
  end.

Definition run (evs : list Event) (p : Process) : Process := fold_left step evs p.

(** The first snapshot a Firestore listener delivers lists every document
    already in the collection as an ['added'] change. *)
Definition initialSnapshot (activityLogs : list ActivityDoc) : list DocumentChange :=
  map (mkChange added) activityLogs.

(** Lines 69-88: the listener is attached; no call is in flight yet. *)
Definition watchActivityLog (w : World) : Process :=
  mkProcess (exec (consoleLog LogWatching) w) [].

(** The script started without [--clear] on a store and an activity log:
    [watchActivityLog()] (line 135), then the first snapshot arrives. *)
Definition startScript (activityLogs : list ActivityDoc) (store : list Doc) : Process :=
  step (watchActivityLog (mkWorld store [] [])) (Snapshot (initialSnapshot activityLogs)).

(** Events handled one at a time: each call of [createNewBlock] runs to
    completion before the next one starts. *)
Definition processAll (calls : list (Env * JSON)) (w : World) : World :=
  fold_left (fun w c => exec (createNewBlock (fst c) (snd c)) w) calls w.

(** The chain as the dashboard reads it (line 415):
    [orderBy("timestamp", "asc")]. *)
Definition chainOf (w : World) : list Block := map snd (orderBy Asc (blockchain w)).

(** The blocks in the order they were added. *)
Definition blocksAdded (w : World) : list Block := map snd (blockchain w).

(* ===================================================================== *)
(** ** [clearCollection] (lines 91-114)

    The collection is the list of its documents in the order an unordered
    query returns them; [limit(500).get()] is its first 500 documents and
    committing the batch of deletes leaves the others. *)

Section ClearCollection.

Context {A : Type}.

Inductive ClearLog : Type :=
| LogAlreadyEmpty          (* line 96 *)
| LogCleared (size : nat). (* line 108 *)

(** Keeps the equation between a value and the pattern it is matched with. *)
Definition inspect {B : Type} (x : B) : { y : B | x = y } := exist _ x eq_refl.

Record Collection : Type := mkCollection
  { documents : list A;
    batches : list (list A);     (* the batches committed, line 106 *)
    messages : list ClearLog }.

(** [collectionRef.limit(n).get()] and what is left of the collection
    once the documents of that snapshot are deleted. *)
Definition limitGet (n : nat) (docs : list A) : list A := firstn n docs.
Definition deleteFirst (n : nat) (docs : list A) : list A := skipn n docs.
Arguments limitGet : simpl never.
Arguments deleteFirst : simpl never.

Equations? clearCollection (c : Collection) : Collection
  by wf (List.length (documents c)) lt :=
  clearCollection c with inspect (limitGet 500 (documents c)) := {
    | exist _ [] _ =>
        mkCollection (documents c) (batches c) (messages c ++ [LogAlreadyEmpty])%list
    | exist _ (d :: ds) Hsnap =>
        let snapshot := d :: ds in
        let c' := mkCollection (deleteFirst 500 (documents c))
                               (batches c ++ [snapshot])%list
                               (messages c ++ [LogCleared (List.length snapshot)])%list in
        if Nat.eqb (List.length snapshot) 500 then clearCollection c' else c' }.
Proof.
  unfold deleteFirst. unfold limitGet in Hsnap.
  destruct (documents c) as [|x xs]; [discriminate Hsnap|].
  rewrite length_skipn. simpl List.length. lia.
Qed.

End ClearCollection.

Arguments Collection A : clear implicits.

(* ===================================================================== *)
(** ** The dashboard's file list (lines 392-412, 427-432) *)

Module Dashboard.

Inductive FileType : Type := image | doc | generic.

(** [fileName.split('.')]: never empty. *)
Fixpoint split (sep : ascii) (s : string) : list string :=
  match s with
  | EmptyString => [EmptyString]
  | String c rest =>
      if Ascii.eqb c sep then EmptyString :: split sep rest
      else match split sep rest with
           | [] => [str1 c]
           | part :: parts => String c part :: parts
           end
  end.

Definition pop (parts : list string) : string := last parts EmptyString.

Definition lowerChar (c : ascii) : ascii :=
  let n := nat_of_ascii c in
  if andb (Nat.leb 65 n) (Nat.leb n 90) then ascii_of_nat (n + 32) else c.

Fixpoint toLowerCase (s : string) : string :=
  match s with
  | EmptyString => EmptyString
  | String c rest => String (lowerChar c) (toLowerCase rest)
  end.

Definition includes (l : list string) (x : string) : bool :=
  existsb (String.eqb x) l.

Definition getFileType (fileName : string) : FileType :=
  let extension := toLowerCase (pop (split "."%char fileName)) in
  if includes ["jpg"; "jpeg"; "png"; "gif"] extension then image
  else if includes ["pdf"; "doc"; "docx"; "txt"] extension then doc
  else generic.

Record FileEntry : Type := mkFile
  { file_id : JSON;
    file_name : string;
    file_type : FileType;
    file_timestamp : option JSON }.

(** A JavaScript [Map] with string keys: entries in insertion order;
    [set] on a key already present keeps its place. *)
Definition FileMap : Type := list (string * FileEntry).

Fixpoint mapSet (key : string) (value : FileEntry) (m : FileMap) : FileMap :=
  match m with
  | [] => [(key, value)]
  | (k, v) :: rest =>
      if String.eqb k key then (k, value) :: rest
      else (k, v) :: mapSet key value rest
  end.

Fixpoint mapDelete (key : string) (m : FileMap) : FileMap :=
  match m with
  | [] => []
  | (k, v) :: rest =>
      if String.eqb k key then rest else (k, v) :: mapDelete key rest
  end.

Definition mapValues (m : FileMap) : list FileEntry := map snd m.

(** [{ id: doc.id, ...doc.data() }]: an [id] field of the data wins. *)
Definition logId (d : ActivityDoc) : JSON :=
  match getProp (snd d) "id" with
  | Some v => v
  | None => JStr (fst d)
  end.

(** The body of the [forEach] at lines 397-411.  [None] is the
    [TypeError] of calling [startsWith] or [split] on something that is
    not a string. *)
Definition applyLog (fileMap : FileMap) (d : ActivityDoc) : option FileMap :=
  let log := snd d in
  match getProp log "action" with
  | Some (JStr action) =>
      if String.prefix "UPLOAD_FILE" action then
        match getProp log "fileName" with
        | Some (JStr fileName) =>
            Some (mapSet fileName
                    (mkFile (logId d) fileName (getFileType fileName)
                            (getProp log "timestamp"))
                    fileMap)
        | _ => None
        end
      else if String.eqb action "DELETE_FILE" then
        match getProp log "fileName" with
        | Some (JStr fileName) => Some (mapDelete fileName fileMap)
        | _ => Some fileMap
        end
      else Some fileMap
  | _ => None
  end.

Fixpoint applyLogs (fileMap : FileMap) (allActivities : list ActivityDoc) : option FileMap :=
  match allActivities with
  | [] => Some fileMap
  | d :: rest =>
      match applyLog fileMap d with
      | Some fileMap' => applyLogs fileMap' rest
      | None => None
      end
  end.

(** [Array.from(fileMap.values())] for the log of the snapshot. *)
Definition currentFiles (allActivities : list ActivityDoc) : option (list FileEntry) :=
  option_map mapValues (applyLogs [] allActivities).

End Dashboard.

(* ===================================================================== *)
(** ** Chain verification *)

Module ChainVerifier.

(** Modelled from the spec: the reasons of section 4.4. *)
Inductive Reason : Type := HashMismatch | LinkageMismatch | EmptyChain.

(** Modelled from the spec: the result of section 4.4. *)
Inductive VerificationResult : Type :=
| Valid
| Invalid (atIndex : nat) (reason : Reason).

(** Modelled from the spec: the comparison of section 4.4, the digest
    recomputed by [createNewBlock]'s own serialization and digest step
    against the stored [hash]. *)
Definition hashMatches (b : Block) : bool :=
  String.eqb (blockHashOf (contentOf b)) (hash b).

(** Modelled from the spec: the scan of section 4.4 over blocks [i],
    [i+1], ..., [prevHash] being the hash of block [i-1].  Section 4.4
    names the two comparisons made at a position; section 8 settles which
    is reported when both fail: swapping the [previousHash] of block [i],
    which changes the digest of the block as well, is to yield
    [Invalid(i, LinkageMismatch)].  So the linkage is compared first, as
    it is for block 0. *)
Fixpoint verifyFrom (i : nat) (prevHash : string) (chain : list Block) : VerificationResult :=
  match chain with
  | [] => Valid
  | b :: rest =>
      if negb (String.eqb (previousHash b) prevHash) then Invalid i LinkageMismatch
      else if negb (hashMatches b) then Invalid i HashMismatch
      else verifyFrom (S i) (hash b) rest
  end.

(** Modelled from the spec: the source has no verification operation (the
    blockchain viewer only renders the chain), so [verify] follows section
    4.4: an empty chain is valid; block 0 is rejected when its
    [previousHash] is not ["0"]; then, in ascending order, each block's
    digest is recomputed and compared with its [hash], and for [i > 0] its
    [previousHash] is compared with the [hash] of block [i-1]; the first
    violation found is returned. *)
Definition verify (chain : list Block) : VerificationResult :=
  match chain with
  | [] => Valid
  | b :: rest =>
      if negb (String.eqb (previousHash b) "0") then Invalid 0 LinkageMismatch
      else if negb (hashMatches b) then Invalid 0 HashMismatch
      else verifyFrom 1 (hash b) rest
  end.

End ChainVerifier.

(* ===================================================================== *)
(** ** Vocabulary of the statements *)

Definition isHexDigit (c : ascii) : bool :=
  existsb (Ascii.eqb c) (list_ascii_of_string "0123456789abcdef").

(** The [previousHash] line 38-42 derive from a store. *)
Definition tipHash (store : list Doc) : string :=
  match limit 1 (orderBy Desc store) with
  | [] => "0"
  | doc0 :: _ => hash (snd doc0)
  end.

(** The block [createNewBlock] builds on a store at a clock reading. *)
Definition blockFor (clock : Z) (newActivityData : JSON) (store : list Doc) : Block :=
  let newBlock := mkNewBlock clock newActivityData (tipHash store) in
  setHash newBlock (blockHashOf newBlock).

(** A chain whose blocks are linked position by position. *)
Record linked (chain : list Block) : Prop := mkLinked
  { linked_genesis : forall b, nth_error chain 0 = Some b -> previousHash b = "0";
    linked_previous : forall i p b,
        nth_error chain i = Some p -> nth_error chain (S i) = Some b ->
        previousHash b = hash p;
    linked_digest : forall b, In b chain -> hash b = blockHashOf (contentOf b) }.

(** The same, told along the list: [prev] is what the first block must
    point to. *)
Fixpoint linkedFrom (prev : string) (chain : list Block) : Prop :=
  match chain with
  | [] => True
  | b :: rest =>
      previousHash b = prev /\ hash b = blockHashOf (contentOf b) /\
      linkedFrom (hash b) rest
  end.

(** The hash the next block has to point to after [chain]. *)
Fixpoint lastHash (prev : string) (chain : list Block) : string :=
  match chain with
  | [] => prev
  | b :: rest => lastHash (hash b) rest
  end.

(** Every stored hash is a digest-sized string, and so is every
    [previousHash] but the one of the block stored first. *)
Definition pointsBack (store : list Doc) : Prop :=
  Forall (fun d => String.length (hash (snd d)) = 64%nat) store
  /\ match store with
     | [] => True
     | _ :: rest => Forall (fun d => String.length (previousHash (snd d)) = 64%nat) rest
     end.

(** What lines 38-56 write to the console on a store. *)
Definition linkLines (clock : Z) (newActivityData : JSON) (store : list Doc) : list LogLine :=
  [ match limit 1 (orderBy Desc store) with
    | [] => LogGenesis
    | _ :: _ => LogLastBlockFound (substring 0 10 (tipHash store))
    end;
    LogBlockCreated (substring 0 10 (hash (blockFor clock newActivityData store))) ].

(** The run of [createNewBlock] ends in the [catch] with this error. *)
Definition failsWith (env : Env) (e : Error) : Prop :=
  getFault env = Some e \/ (getFault env = None /\ addAnswer env = Rejected e).

(** The call gets through both requests and stores its block. *)
Definition storesBlock (c : Env * JSON) : bool :=
  match getFault (fst c), addAnswer (fst c) with
  | None, Fulfilled _ => true
  | _, _ => false
  end.

(** The clock readings that end up as timestamps of stored blocks. *)
Definition readings (calls : list (Env * JSON)) : list Z :=
  map (fun c => now (fst c)) (filter storesBlock calls).

(** From one stored block to the next the clock reading goes strictly up. *)
Definition clockIncreasing (calls : list (Env * JSON)) : Prop :=
  StronglySorted Z.lt (readings calls).

Definition timestampsOf (store : list Doc) : list Z :=
  map (fun d => timestamp (snd d)) store.

(** The field the latest-block query of line 34 sorts on. *)
Definition orderKey (d : Doc) : Z := timestamp (snd d).

Definition tsOrder (dir : Direction) (a b : Doc) : Prop :=
  match dir with
  | Asc => (orderKey a <= orderKey b)%Z
  | Desc => (orderKey b <= orderKey a)%Z
  end.

Module VerifierSpec.
Import ChainVerifier.







End VerifierSpec.

(** Sample data. *)
Module Sample.

Definition upload : JSON :=
  JObj [ ("userId", JStr "u1"); ("userEmail", JStr "a@b.c");
         ("action", JStr "UPLOAD_FILE"); ("fileName", JStr "a.txt");
         ("timestamp", JNum 1000) ].

Definition delete : JSON :=
  JObj [ ("userId", JStr "u1"); ("userEmail", JStr "a@b.c");
         ("action", JStr "DELETE_FILE"); ("fileName", JStr "a.txt");
         ("timestamp", JNum 2000) ].

Definition ok (clock : Z) (id : DocId) : Env := mkEnv None clock (Fulfilled id).

(** Three calls whose clock readings are 10, 5 and 7. *)
Definition clockSteppedBack : list (Env * JSON) :=
  [ (ok 10 "a", upload); (ok 5 "b", delete); (ok 7 "c", upload) ].

(** One snapshot with two added documents; both queries are answered
    before either block is stored. *)
Definition twoInOneSnapshot : list Event :=
  [ Snapshot [ mkChange added ("e1", upload); mkChange added ("e2", delete) ];
    Resumed 0 (QueryAnswered None 10);
    Resumed 1 (QueryAnswered None 11);
    Resumed 0 (AddAnswered (Fulfilled "a"));
    Resumed 1 (AddAnswered (Fulfilled "b")) ].





(** A task is carried through its two awaits without a fault. *)
Definition finishTask (i : nat) (clock : Z) (id : DocId) : list Event :=
  [ Resumed i (QueryAnswered None clock); Resumed i (AddAnswered (Fulfilled id)) ].

End Sample.

(* ===================================================================== *)
(** ** Further vocabulary: pages, calls in flight, delivered changes *)

(** The message [clearCollection] logs for a committed page. *)
Definition clearedMessage {A : Type} (page : list A) : ClearLog :=
  LogCleared (List.length page).

(** Calls of [createNewBlock] not yet finished. *)
Definition inFlight (ts : list Task) : nat :=
  List.length (filter (fun t => match t with Finished => false | _ => true end) ts).

(** The payloads the listener was handed as ['added'] changes. *)
Definition deliveredAdded (evs : list Event) : list JSON :=
  flat_map (fun ev =>
              match ev with
              | Snapshot docChanges =>
                  map (fun c => snd (change_doc c)) (filter isAdded docChanges)
              | _ => []
              end) evs.

(** A block that hashes to its [hash] and points to the sentinel or to a
    block of [store]. *)
Definition wellLinked (store : list Doc) (b : Block) : Prop :=
  hash b = blockHashOf (contentOf b)
  /\ (previousHash b = "0" \/ exists d, In d store /\ previousHash b = hash (snd d)).

(** Every block of the store is well linked to the blocks stored before it. *)
Fixpoint linksBack (before store : list Doc) : Prop :=
  match store with
  | [] => True
  | d :: rest => wellLinked before (snd d) /\ linksBack (before ++ [d]) rest
  end.

(** What a call in flight holds is fit to be stored. *)
Definition taskFits (store : list Doc) (t : Task) : Prop :=
  match t with
  | AwaitAdd b => wellLinked store b
  | _ => True
  end.

(** The payload a call was started with. *)
Definition taskPayloadIn (payloads : list JSON) (t : Task) : Prop :=
  match t with
  | AwaitQuery act => In act payloads
  | AwaitAdd b => In (activity b) payloads
  | Finished => True
  end.


(** What resuming a call can do to it and to the store: nothing, link a
    block to the store's tip, give up, or store the block it holds. *)
Inductive taskMove (store : list Doc) : Task -> Task -> list Doc -> Prop :=
| move_none (t : Task) : taskMove store t t []
| move_linked (act : JSON) (clock : Z) :
    taskMove store (AwaitQuery act) (AwaitAdd (blockFor clock act store)) []
| move_dropped (t : Task) : taskMove store t Finished []
| move_stored (b : Block) (id : DocId) :
    taskMove store (AwaitAdd b) Finished [(id, b)].

(** One unit for a call in flight. *)
Definition flying (t : Task) : nat :=
  match t with
  | Finished => 0
  | _ => 1
  end.


(* ===================================================================== *)
(** ** The dashboard's handlers (lines 436-473) and what a log entry does *)

Module Frontend.

Import Dashboard.

(** The signed-in user: [user.uid], [user.email]. *)
Record User : Type := mkUser
  { uid : string;
    email : JSON }.

(** The object [handleDelete] writes to [activityLogs] (lines 441-447);
    [stamp] is what [new Date()] is stored as. *)
Definition deletionEntry (user : User) (fileToDelete : FileEntry) (stamp : JSON) : JSON :=
  JObj [ ("userId", JStr (uid user));
         ("userEmail", email user);
         ("action", JStr "DELETE_FILE");
         ("fileName", JStr (file_name fileToDelete));
         ("timestamp", stamp) ].

(** What the upload widget hands to [handleUpload]: [fileInfo.name] and
    [fileInfo.cdnUrl], the latter possibly missing. *)
Record FileInfo : Type := mkFileInfo
  { info_name : string;
    info_cdnUrl : option string }.

(** The object [handleUpload] writes (lines 460-467). *)
Definition uploadEntry (user : User) (name cdnUrl : string) (stamp : JSON) : JSON :=
  JObj [ ("userId", JStr (uid user));
         ("userEmail", email user);
         ("action", JStr "UPLOAD_FILE_UPLOADCARE");
         ("fileName", JStr name);
         ("fileURL", JStr cdnUrl);
         ("timestamp", stamp) ].

Inductive Notice : Type :=
| AskedToConfirm (name : string)       (* line 437, window.confirm *)
| DeletionLogged (name : string)       (* line 449 *)
| DeletionFailed (message : Error)     (* line 451 *)
| UploadLogged (name : string)         (* line 468, setSuccessMsg *)
| UploadFailed (message : Error).      (* line 471 *)

(** The [activityLogs] collection, in the order of the writes, and what
    the page showed the user. *)
Record Page : Type := mkPage
  { written : list ActivityDoc;
    notices : list Notice }.

(** Lines 436-454.  [answer] is what the user answers when asked, [stamp]
    the time of the write and [added] how [addDoc] settles. *)
Definition handleDelete (user : User) (fileToDelete : FileEntry) (confirm : bool)
    (answer : bool) (stamp : JSON) (added : Settled DocId) (p : Page) : Page :=
  let asked := if confirm then [AskedToConfirm (file_name fileToDelete)] else [] in
  let shouldDelete := if confirm then answer else true in
  if shouldDelete then
    match added with
    | Fulfilled id =>
        mkPage (written p ++ [(id, deletionEntry user fileToDelete stamp)])%list
               (notices p ++ asked ++ [DeletionLogged (file_name fileToDelete)])%list
    | Rejected err =>
        mkPage (written p) (notices p ++ asked ++ [DeletionFailed err])%list
    end
  else mkPage (written p) (notices p ++ asked)%list.

(** Lines 457-473.  [None] is a call without [fileInfo]; an empty
    [cdnUrl] is as good as none. *)
Definition handleUpload (user : User) (fileInfo : option FileInfo)
    (stamp : JSON) (added : Settled DocId) (p : Page) : Page :=
  match fileInfo with
  | Some (mkFileInfo name (Some cdnUrl)) =>
      if String.eqb cdnUrl "" then p
      else
        match added with
        | Fulfilled id =>
            mkPage (written p ++ [(id, uploadEntry user name cdnUrl stamp)])%list
                   (notices p ++ [UploadLogged name])%list
        | Rejected err =>
            mkPage (written p) (notices p ++ [UploadFailed err])%list
        end
  | _ => p
  end.

(** The assistant's [deleteFile] tool (lines 769-777):
    [files.find(f => f.name === args.fileName)], then [handleDelete]
    without confirmation.  The boolean tells whether a file was found. *)
Definition deleteFileTool (user : User) (files : list FileEntry) (fileName : string)
    (stamp : JSON) (added : Settled DocId) (p : Page) : bool * Page :=
  match find (fun f => String.eqb (file_name f) fileName) files with
  | Some fileToDelete => (true, handleDelete user fileToDelete false false stamp added p)
  | None => (false, p)
  end.

(** The entry is an upload of [name]. *)
Definition uploadsb (name : string) (d : ActivityDoc) : bool :=
  match getProp (snd d) "action", getProp (snd d) "fileName" with
  | Some (JStr action), Some (JStr fileName) =>
      String.prefix "UPLOAD_FILE" action && String.eqb fileName name
  | _, _ => false
  end.

(** The entry is a deletion of [name]. *)
Definition deletesb (name : string) (d : ActivityDoc) : bool :=
  match getProp (snd d) "action", getProp (snd d) "fileName" with
  | Some (JStr action), Some (JStr fileName) =>
      negb (String.prefix "UPLOAD_FILE" action)
      && String.eqb action "DELETE_FILE" && String.eqb fileName name
  | _, _ => false
  end.

Definition touchesb (name : string) (d : ActivityDoc) : bool :=
  uploadsb name d || deletesb name d.

(** The entry makes the derivation throw: its action is not a string, or
    it is an upload whose file name is not a string. *)
Definition throwsb (d : ActivityDoc) : bool :=
  match getProp (snd d) "action" with
  | Some (JStr action) =>
      if String.prefix "UPLOAD_FILE" action then
        match getProp (snd d) "fileName" with
        | Some (JStr _) => false
        | _ => true
        end
      else false
  | _ => true
  end.

(** The file entry built from an upload (lines 400-406). *)
Definition entryOf (d : ActivityDoc) (name : string) : FileEntry :=
  mkFile (logId d) name (getFileType name) (getProp (snd d) "timestamp").

(** [name] was uploaded by [d] and nothing after [d] touched it. *)
Definition lastUploadedBy (logs : list ActivityDoc) (name : string) (d : ActivityDoc) : Prop :=
  exists pre post,
    logs = (pre ++ d :: post)%list
    /\ uploadsb name d = true
    /\ forallb (fun x => negb (touchesb name x)) post = true.

(** A file name with no ['.'] in it. *)
Fixpoint dotFree (s : string) : bool :=
  match s with
  | EmptyString => true
  | String c rest => negb (Ascii.eqb c "."%char) && dotFree rest
  end.

End Frontend.


(* ===================================================================== *)
(** ** [ThemeToggle] (frontend/src/ThemeToggle.js) *)

Module ThemeToggle.

(** What the component reads and writes outside itself:
    [localStorage["theme"]] and the [data-theme] attribute of the
    document element. *)
Record Browser : Type := mkBrowser
  { storedTheme : option string;
    dataTheme : option string }.

(** The mounted component: its [theme] state and the browser. *)
Record Mounted : Type := mkMounted
  { theme : string;
    browser : Browser }.

(** [localStorage.getItem("theme") || "dark"] (lines 4-6): a missing or
    empty item gives ["dark"]. *)
Definition initialTheme (b : Browser) : string :=
  match storedTheme b with
  | Some s => if String.eqb s "" then "dark" else s
  | None => "dark"
  end.

(** The effect of lines 8-11, run after every render that changed
    [theme]. *)
Definition effect (t : string) : Browser := mkBrowser (Some t) (Some t).

(** First render and its effect. *)
Definition mount (b : Browser) : Mounted :=
  let t := initialTheme b in mkMounted t (effect t).

(** Line 16: [setTheme(theme === "dark" ? "light" : "dark")], then the
    render and its effect. *)
Definition onClick (m : Mounted) : Mounted :=
  let t := if String.eqb (theme m) "dark" then "light" else "dark" in
  mkMounted t (effect t).

(** Line 19: the text of the button. *)
Definition label (m : Mounted) : string :=
  "Switch to " ++ (if String.eqb (theme m) "dark" then "Light" else "Dark") ++ " Mode".

Definition clicks (n : nat) (m : Mounted) : Mounted := Nat.iter n onClick m.

End ThemeToggle.

(* ===================================================================== *)
(** ** [clearCollection] on a store that may fail, and the script's entry
    point (lines 117-136) *)

Section ClearCollectionWith.

Context {A : Type}.

(** The store's answer to the [i]-th request of a clearing: an error or
    none; requests beyond the list succeed. *)
Definition answerAt (answers : list (option Error)) (i : nat) : option Error :=
  nth i answers None.

Arguments limitGet : simpl never.
Arguments deleteFirst : simpl never.

(** [clearCollection] with the store's answers to its requests in order:
    a fetch and, when the page is not empty, a commit, for each page.
    Nothing is caught: the first rejection is the rejection of the call. *)
Equations? clearCollectionWith (answers : list (option Error)) (c : Collection A) :
  Settled unit * Collection A
  by wf (List.length (documents c)) lt :=
  clearCollectionWith answers c with inspect (limitGet 500 (documents c)) := {
    | exist _ [] _ =>
        match answerAt answers 0 with
        | Some e => (Rejected e, c)
        | None =>
            (Fulfilled tt,
             mkCollection (documents c) (batches c)
                          (messages c ++ [LogAlreadyEmpty])%list)
        end
    | exist _ (d :: ds) Hsnap =>
        let snapshot := d :: ds in
        let c' := mkCollection (deleteFirst 500 (documents c))
                               (batches c ++ [snapshot])%list
                               (messages c ++ [LogCleared (List.length snapshot)])%list in
        match answerAt answers 0 with
        | Some e => (Rejected e, c)
        | None =>
            match answerAt answers 1 with
            | Some e => (Rejected e, c)
            | None =>
                if Nat.eqb (List.length snapshot) 500
                then clearCollectionWith (skipn 2 answers) c'
                else (Fulfilled tt, c')
            end
        end }.
Proof.
  unfold deleteFirst. unfold limitGet in Hsnap.
  destruct (documents c) as [|x xs]; [discriminate Hsnap|].
  rewrite length_skipn. simpl List.length. lia.
Qed.

End ClearCollectionWith.

(** How the script ends when started with some arguments: it exits after
    clearing, with the two collections as they are left when both
    clearings succeed, or it stays listening. *)
Inductive ScriptEnd : Type :=
| ExitedCleared (blockchainLeft : Collection Doc) (activityLogsLeft : Collection ActivityDoc)
| ExitedOnError
| Listening (p : Process).

(** [process.exit(...)]: 0 after a complete clearing, 1 after a failure;
    a listening script has not exited. *)
Definition exitCode (r : ScriptEnd) : option Z :=
  match r with
  | ExitedCleared _ _ => Some 0%Z
  | ExitedOnError => Some 1%Z
  | Listening _ => None
  end.

(** Lines 120-136.  [Promise.all] fulfils when both clearings do and
    rejects as soon as one rejects, upon which the process exits while
    the other clearing may still be under way: the state of the
    collections at that moment is not part of the result. *)
Definition mainScript (argv : list string)
    (answersBlockchain answersLogs : list (option Error))
    (store : list Doc) (activityLogs : list ActivityDoc) : ScriptEnd :=
  if existsb (String.eqb "--clear") argv then
    match clearCollectionWith answersBlockchain (mkCollection store [] []),
          clearCollectionWith answersLogs (mkCollection activityLogs [] []) with
    | (Fulfilled _, b), (Fulfilled _, l) => ExitedCleared b l
    | _, _ => ExitedOnError
    end
  else Listening (watchActivityLog (mkWorld store [] [])).


(* ===================================================================== *)
(** * Properties *)

(** ** The digest *)

Section Digest.

Import CryptoJS.

Example constants_ends :
  nth 0 K 0%Z = 0x428a2f98%Z /\ nth 63 K 0%Z = 0xc67178f2%Z /\
  List.length K = 64%nat /\
  va H_init = 0x6a09e667%Z /\ vh H_init = 0x5be0cd19%Z.
Proof. vm_compute. repeat split. Qed.

Example SHA256_abc :
  SHA256 "abc" = "ba7816bf8f01cfea414140de5dae2223b00361a396177a9cb410ff61f20015ad".
Proof. vm_compute. reflexivity. Qed.

Example SHA256_empty :
  SHA256 "" = "e3b0c44298fc1c149afbf4c8996fb92427ae41e4649b934ca495991b7852b855".
Proof. vm_compute. reflexivity. Qed.

Example SHA256_two_blocks :
  SHA256 "abcdbcdecdefdefgefghfghighijhijkijkljklmklmnlmnomnopnopq"
  = "248d6a61d20638b8e5c026930c3e6039a33ce45964ff2167f6ecedd419db06c1".
Proof. vm_compute. reflexivity. Qed.

Lemma length_string_of_list_ascii (l : list ascii) :
  String.length (string_of_list_ascii l) = List.length l.
Proof. induction l as [|c l IH]; simpl; [reflexivity | now rewrite IH]. Qed.

Lemma hexDigit_isHex (n : Z) : isHexDigit (hexDigit n) = true.
Proof.
  unfold hexDigit.
  assert (Hlt : (Z.to_nat (n mod 16) < 16)%nat).
  { pose proof (Z.mod_pos_bound n 16 ltac:(lia)). lia. }
  revert Hlt. generalize (Z.to_nat (n mod 16)) as i. intros i Hlt.
  do 16 (destruct i as [|i]; [reflexivity|]). lia.
Qed.

Lemma SHA256_length (message : string) : String.length (SHA256 message) = 64%nat.
Proof.
  unfold SHA256, hexStringify. rewrite length_string_of_list_ascii.
  reflexivity.
Qed.

Lemma hexWord_isHex (w : Z) : Forall (fun c => isHexDigit c = true) (hexWord w).
Proof. unfold hexWord. repeat constructor; apply hexDigit_isHex. Qed.

Lemma SHA256_hex (message : string) :
  Forall (fun c => isHexDigit c = true) (list_ascii_of_string (SHA256 message)).
Proof.
  unfold SHA256, hexStringify. rewrite list_ascii_of_string_of_list_ascii.
  repeat (apply Forall_app; split); apply hexWord_isHex.
Qed.

End Digest.

Lemma blockHashOf_length (nb : NewBlock) : String.length (blockHashOf nb) = 64%nat.
Proof. apply SHA256_length. Qed.

Lemma blockHashOf_not_sentinel (nb : NewBlock) : blockHashOf nb <> "0".
Proof.
  intros H. pose proof (blockHashOf_length nb) as L. rewrite H in L. discriminate L.
Qed.

(** ** The queries *)

Section Queries.

Lemma doc_leb_true (a b : Doc) : doc_leb a b = true -> (orderKey a <= orderKey b)%Z.
Proof.
  unfold doc_leb, orderKey.
  destruct (Z.compare_spec (timestamp (snd a)) (timestamp (snd b)));
    intros; first [lia | discriminate].
Qed.

Lemma doc_leb_false (a b : Doc) : doc_leb a b = false -> (orderKey b <= orderKey a)%Z.
Proof.
  unfold doc_leb, orderKey.
  destruct (Z.compare_spec (timestamp (snd a)) (timestamp (snd b)));
    intros; first [lia | discriminate].
Qed.

Lemma doc_leb_lt (a b : Doc) : (orderKey a < orderKey b)%Z -> doc_leb a b = true.
Proof.
  unfold doc_leb, orderKey. intros H.
  apply Z.compare_lt_iff in H. now rewrite H.
Qed.

Lemma doc_leb_gt (a b : Doc) : (orderKey b < orderKey a)%Z -> doc_leb a b = false.
Proof.
  unfold doc_leb, orderKey. intros H.
  apply Z.compare_gt_iff in H. now rewrite H.
Qed.

Lemma comesFirst_true dir a b : comesFirst dir a b = true -> tsOrder dir a b.
Proof. destruct dir; simpl; apply doc_leb_true. Qed.

Lemma comesFirst_false dir a b : comesFirst dir a b = false -> tsOrder dir b a.
Proof. destruct dir; simpl; apply doc_leb_false. Qed.

Lemma tsOrder_trans dir a b c : tsOrder dir a b -> tsOrder dir b c -> tsOrder dir a c.
Proof. destruct dir; unfold tsOrder; lia. Qed.

Lemma insertDoc_perm dir d l : Permutation (insertDoc dir d l) (d :: l).
Proof.
  induction l as [|x l IH]; simpl; [reflexivity|].
  destruct (comesFirst dir d x); [reflexivity|].
  rewrite IH. apply perm_swap.
Qed.

Lemma orderBy_perm dir l : Permutation (orderBy dir l) l.
Proof.
  induction l as [|x l IH]; simpl; [reflexivity|].
  rewrite insertDoc_perm. now constructor.
Qed.

Lemma orderBy_In dir l d : In d (orderBy dir l) <-> In d l.
Proof.
  split; apply Permutation_in; [|symmetry]; apply orderBy_perm.
Qed.

Lemma insertDoc_sorted dir d l :
  StronglySorted (tsOrder dir) l -> StronglySorted (tsOrder dir) (insertDoc dir d l).
Proof.
  induction 1 as [|x l Hs IH Hx]; simpl.
  - repeat constructor.
  - destruct (comesFirst dir d x) eqn:E.
    + constructor; [now constructor|].
      apply comesFirst_true in E. constructor; [exact E|].
      eapply Forall_impl; [|exact Hx]. intros y Hy.
      eapply tsOrder_trans; eassumption.
    + constructor; [exact IH|].
      apply comesFirst_false in E.
      eapply Permutation_Forall; [symmetry; apply insertDoc_perm|].
      now constructor.
Qed.

Lemma orderBy_sorted dir l : StronglySorted (tsOrder dir) (orderBy dir l).
Proof.
  induction l as [|x l IH]; simpl; [constructor | now apply insertDoc_sorted].
Qed.

(** The head of the descending query carries a greatest timestamp. *)
Lemma orderBy_Desc_head l d rest :
  orderBy Desc l = d :: rest ->
  In d l /\ forall d', In d' l -> (orderKey d' <= orderKey d)%Z.
Proof.
  intros H. split.
  - apply (orderBy_In Desc). rewrite H. now left.
  - intros d' Hin. apply (orderBy_In Desc) in Hin. rewrite H in Hin.
    pose proof (orderBy_sorted Desc l) as S. rewrite H in S.
    inversion S as [|? ? _ Hall]; subst.
    destruct Hin as [->|Hin]; [lia|].
    rewrite Forall_forall in Hall. apply (Hall d' Hin).
Qed.

Lemma orderBy_nonempty dir l : l <> [] -> orderBy dir l <> [].
Proof.
  intros Hne E. destruct l as [|x l]; [contradiction|].
  pose proof (orderBy_perm dir (x :: l)) as P. rewrite E in P.
  apply Permutation_nil in P. discriminate.
Qed.

(** On a store whose timestamps go strictly up in the order of
    insertion, the ascending query returns the store as it is and the
    descending query returns it reversed. *)
Lemma insertDoc_Asc_least d l :
  Forall (fun x => (orderKey d < orderKey x)%Z) l -> insertDoc Asc d l = d :: l.
Proof.
  destruct l as [|x l]; simpl; [reflexivity|].
  intros H. inversion H; subst. now rewrite doc_leb_lt.
Qed.

Lemma insertDoc_Desc_least d l :
  Forall (fun x => (orderKey d < orderKey x)%Z) l -> insertDoc Desc d l = (l ++ [d])%list.
Proof.
  induction l as [|x l IH]; simpl; [reflexivity|].
  intros H. inversion H; subst. rewrite doc_leb_gt by assumption.
  now rewrite IH.
Qed.

Lemma timestamps_sorted_cons d l :
  StronglySorted Z.lt (timestampsOf (d :: l)) ->
  StronglySorted Z.lt (timestampsOf l) /\
  Forall (fun x => (orderKey d < orderKey x)%Z) l.
Proof.
  unfold timestampsOf. simpl. intros H. inversion H as [|? ? Hs Hall]; subst.
  split; [exact Hs|]. rewrite Forall_map in Hall. exact Hall.
Qed.

Lemma orderBy_Asc_sorted l :
  StronglySorted Z.lt (timestampsOf l) -> orderBy Asc l = l.
Proof.
  induction l as [|d l IH]; [reflexivity|].
  intros H. apply timestamps_sorted_cons in H as [Hs Hall].
  simpl. rewrite (IH Hs). now apply insertDoc_Asc_least.
Qed.

Lemma orderBy_Desc_sorted l :
  StronglySorted Z.lt (timestampsOf l) -> orderBy Desc l = rev l.
Proof.
  induction l as [|d l IH]; [reflexivity|].
  intros H. apply timestamps_sorted_cons in H as [Hs Hall].
  simpl. rewrite (IH Hs). apply insertDoc_Desc_least.
  rewrite Forall_forall in *. intros x Hx. apply Hall. now apply in_rev.
Qed.

Lemma lastHash_app prev l b : lastHash prev (l ++ [b]) = hash b.
Proof. revert prev. induction l as [|a l IH]; intros prev; simpl; auto. Qed.

Lemma tipHash_sorted l :
  StronglySorted Z.lt (timestampsOf l) -> tipHash l = lastHash "0" (map snd l).
Proof.
  intros H. unfold tipHash. rewrite (orderBy_Desc_sorted l H).
  destruct l as [|d0 l0] using rev_ind; [reflexivity|].
  rewrite rev_app_distr, map_app. simpl (map snd [d0]).
  rewrite lastHash_app. reflexivity.
Qed.

End Queries.

(** ** One run of [createNewBlock] *)

Arguments blockHashOf : simpl never.
Arguments orderBy : simpl never.
Arguments limit : simpl never.

Section CreateNewBlock.

Variables (env : Env) (act : JSON) (w : World).

Lemma linkBlock_run (clock : Z) (payload : JSON) (w' : World) :
  linkBlock clock payload (limit 1 (orderBy Desc (blockchain w))) w'
  = (Fulfilled (blockFor clock payload (blockchain w)),
     mkWorld (blockchain w')
             (console w' ++ linkLines clock payload (blockchain w))%list
             (requests w')).
Proof.
  unfold linkBlock, linkLines, blockFor, tipHash, bind, consoleLog, ret.
  destruct (limit 1 (orderBy Desc (blockchain w))) as [|doc0 rest]; simpl;
    rewrite <- !app_assoc; reflexivity.
Qed.

Lemma createNewBlock_get_fails (e : Error) :
  getFault env = Some e ->
  createNewBlock env act w
  = (Fulfilled tt,
     mkWorld (blockchain w)
             (console w ++ [LogNewActivity; LogErrorCreating e])%list
             (requests w ++ [ReqGetLatest])%list).
Proof.
  intros Hg. unfold createNewBlock, bind, tryCatch, getLatest, onError, consoleLog.
  rewrite Hg. simpl. rewrite <- !app_assoc. reflexivity.
Qed.

Lemma createNewBlock_add_fails (e : Error) :
  getFault env = None -> addAnswer env = Rejected e ->
  createNewBlock env act w
  = (Fulfilled tt,
     mkWorld (blockchain w)
             (console w ++ LogNewActivity :: linkLines (now env) act (blockchain w)
                        ++ [LogErrorCreating e])%list
             (requests w
                ++ [ReqGetLatest; ReqAdd (blockFor (now env) act (blockchain w))])%list).
Proof.
  intros Hg Ha. unfold createNewBlock, bind, tryCatch, getLatest.
  rewrite Hg. cbn [consoleLog blockchain console requests].
  rewrite linkBlock_run. unfold storeBlock, bind, addDoc, onError, consoleLog.
  rewrite Ha. cbn [blockchain console requests].
  rewrite <- !app_assoc. reflexivity.
Qed.

Lemma createNewBlock_ok (id : DocId) :
  getFault env = None -> addAnswer env = Fulfilled id ->
  createNewBlock env act w
  = (Fulfilled tt,
     mkWorld (blockchain w ++ [(id, blockFor (now env) act (blockchain w))])%list
             (console w ++ LogNewActivity :: linkLines (now env) act (blockchain w)
                        ++ [LogBlockAdded])%list
             (requests w
                ++ [ReqGetLatest; ReqAdd (blockFor (now env) act (blockchain w))])%list).
Proof.
  intros Hg Ha. unfold createNewBlock, bind, tryCatch, getLatest.
  rewrite Hg. cbn [consoleLog blockchain console requests].
  rewrite linkBlock_run. unfold storeBlock, bind, addDoc, onError, consoleLog.
  rewrite Ha. cbn [blockchain console requests].
  rewrite <- !app_assoc. reflexivity.
Qed.

(** Either nothing is stored or exactly the block built on the store. *)
Lemma createNewBlock_blockchain :
  blockchain (exec (createNewBlock env act) w)
  = match getFault env, addAnswer env with
    | None, Fulfilled id =>
        (blockchain w ++ [(id, blockFor (now env) act (blockchain w))])%list
    | _, _ => blockchain w
    end.
Proof.
  unfold exec.
  destruct (getFault env) as [e|] eqn:Hg.
  - now rewrite (createNewBlock_get_fails e Hg).
  - destruct (addAnswer env) as [id|e] eqn:Ha.
    + now rewrite (createNewBlock_ok id Hg Ha).
    + now rewrite (createNewBlock_add_fails e Hg Ha).
Qed.

Lemma createNewBlock_created (id : DocId) (b : Block) :
  blockchain (exec (createNewBlock env act) w) = (blockchain w ++ [(id, b)])%list ->
  b = blockFor (now env) act (blockchain w)
  /\ getFault env = None /\ addAnswer env = Fulfilled id.
Proof.
  rewrite createNewBlock_blockchain.
  assert (Hno : blockchain w <> (blockchain w ++ [(id, b)])%list).
  { intros E. apply (f_equal (@List.length _)) in E.
    rewrite length_app in E. simpl in E. lia. }
  destruct (getFault env); [intros E; now elim Hno|].
  destruct (addAnswer env) as [id'|e]; [|intros E; now elim Hno].
  intros E. apply app_inv_head in E. inversion E; subst. auto.
Qed.

End CreateNewBlock.

(** C1. Every block that [createNewBlock] stores has as [hash] the
    hex-encoded SHA-256 digest of [JSON.stringify] of the object whose
    members are exactly [timestamp], [activity], [previousHash], in that
    order; the block is that three-member object with [hash] set
    afterwards, so the digest is the same whatever the [hash] field holds. *)
Theorem C1_hash_is_digest_of_three_fields
    (env : Env) (act : JSON) (w : World) (id : DocId) (b : Block) :
  blockchain (exec (createNewBlock env act) w) = (blockchain w ++ [(id, b)])%list ->
  hash b = CryptoJS.SHA256
             (JSON_stringify
                (JObj [ ("timestamp", JNum (timestamp b));
                        ("activity", activity b);
                        ("previousHash", JStr (previousHash b)) ]))
  /\ (exists nb : NewBlock, b = setHash nb (blockHashOf nb))
  /\ (forall h : string,
        blockHashOf (contentOf (mkBlock (timestamp b) (activity b) (previousHash b) h))
        = hash b).
Proof.
  intros H. apply createNewBlock_created in H as [-> _].
  split; [reflexivity|]. split; [|reflexivity].
  eexists. unfold blockFor. reflexivity.
Qed.

(** C1 on sample data. *)
Lemma C1_witness :
  let b := blockFor 1700000000000 Sample.upload [] in
  hash b = CryptoJS.SHA256
             (JSON_stringify
                (JObj [ ("timestamp", JNum (timestamp b));
                        ("activity", activity b);
                        ("previousHash", JStr (previousHash b)) ]))
  /\ (exists nb : NewBlock, b = setHash nb (blockHashOf nb))
  /\ (forall h : string,
        blockHashOf (contentOf (mkBlock (timestamp b) (activity b) (previousHash b) h))
        = hash b).
Proof.
  intros b.
  apply (C1_hash_is_digest_of_three_fields
           (Sample.ok 1700000000000 "id1") Sample.upload emptyWorld "id1" b).
  vm_compute. reflexivity.
Defined.

(** C3. The block [createNewBlock] stores has [previousHash] ["0"] when
    the store is empty; otherwise its [previousHash] is the [hash] of the
    one document returned by the descending-by-timestamp query limited to
    one, a stored block whose timestamp no stored block exceeds. *)
Theorem C3_previousHash_from_latest
    (env : Env) (act : JSON) (w : World) (id : DocId) (b : Block) :
  blockchain (exec (createNewBlock env act) w) = (blockchain w ++ [(id, b)])%list ->
  (blockchain w = [] -> previousHash b = "0")
  /\ (blockchain w <> [] ->
      exists d : Doc,
        limit 1 (orderBy Desc (blockchain w)) = [d]
        /\ In d (blockchain w)
        /\ (forall d', In d' (blockchain w) ->
                       (timestamp (snd d') <= timestamp (snd d))%Z)
        /\ previousHash b = hash (snd d)).
Proof.
  intros H. apply createNewBlock_created in H as [-> _].
  split.
  - intros E. rewrite E. reflexivity.
  - intros Hne.
    destruct (orderBy Desc (blockchain w)) as [|d rest] eqn:E.
    + now elim (orderBy_nonempty Desc (blockchain w) Hne).
    + exists d. apply orderBy_Desc_head in E as Hd. destruct Hd as [Hin Hmax].
      split; [reflexivity|]. split; [exact Hin|]. split; [exact Hmax|].
      unfold blockFor, tipHash. simpl. rewrite E. reflexivity.
Qed.

(** C3 on sample data. *)
Lemma C3_witness :
  let w1 := exec (createNewBlock (Sample.ok 10 "a") Sample.upload) emptyWorld in
  let b := blockFor 20 Sample.delete (blockchain w1) in
  (blockchain w1 = [] -> previousHash b = "0")
  /\ (blockchain w1 <> [] ->
      exists d : Doc,
        limit 1 (orderBy Desc (blockchain w1)) = [d]
        /\ In d (blockchain w1)
        /\ (forall d', In d' (blockchain w1) ->
                       (timestamp (snd d') <= timestamp (snd d))%Z)
        /\ previousHash b = hash (snd d)).
Proof.
  intros w1 b.
  apply (C3_previousHash_from_latest (Sample.ok 20 "b") Sample.delete w1 "b" b).
  vm_compute. reflexivity.
Defined.

(** C6. When the latest-block query or the append is rejected, the run of
    [createNewBlock] still completes normally (nothing propagates to the
    caller), the store is unchanged (no block for the event), the error is
    the last thing logged, and the store was asked once for the latest
    block and at most once to add: nothing is tried again. *)
Theorem C6_failure_is_logged_and_dropped
    (env : Env) (act : JSON) (w : World) (e : Error) :
  failsWith env e ->
  outcome (createNewBlock env act) w = Fulfilled tt
  /\ blockchain (exec (createNewBlock env act) w) = blockchain w
  /\ (exists lines,
        console (exec (createNewBlock env act) w)
        = (console w ++ lines ++ [LogErrorCreating e])%list
        /\ ~ In LogBlockAdded lines)
  /\ (requests (exec (createNewBlock env act) w) = (requests w ++ [ReqGetLatest])%list
      \/ exists b, requests (exec (createNewBlock env act) w)
                   = (requests w ++ [ReqGetLatest; ReqAdd b])%list).
Proof.
  unfold outcome, exec. intros [Hg | [Hg Ha]].
  - rewrite (createNewBlock_get_fails env act w e Hg). simpl.
    repeat split; auto.
    exists [LogNewActivity]. split; [reflexivity|].
    intros [F|[]]; discriminate F.
  - rewrite (createNewBlock_add_fails env act w e Hg Ha). simpl.
    repeat split; eauto.
    exists (LogNewActivity :: linkLines (now env) act (blockchain w)). split; [reflexivity|].
    unfold linkLines. intros [F|[F|[F|[]]]]; try discriminate F.
    destruct (limit 1 (orderBy Desc (blockchain w))); discriminate F.
Qed.

(** C6 on sample data. *)
Lemma C6_witness :
  let env := mkEnv None 10 (Rejected "UNAVAILABLE") in
  outcome (createNewBlock env Sample.upload) emptyWorld = Fulfilled tt
  /\ blockchain (exec (createNewBlock env Sample.upload) emptyWorld) = blockchain emptyWorld
  /\ (exists lines,
        console (exec (createNewBlock env Sample.upload) emptyWorld)
        = (console emptyWorld ++ lines ++ [LogErrorCreating "UNAVAILABLE"])%list
        /\ ~ In LogBlockAdded lines)
  /\ (requests (exec (createNewBlock env Sample.upload) emptyWorld)
      = (requests emptyWorld ++ [ReqGetLatest])%list
      \/ exists b, requests (exec (createNewBlock env Sample.upload) emptyWorld)
                   = (requests emptyWorld ++ [ReqGetLatest; ReqAdd b])%list).
Proof.
  intros env.
  apply (C6_failure_is_logged_and_dropped env Sample.upload emptyWorld "UNAVAILABLE").
  right. split; reflexivity.
Defined.

(** [createNewBlock] never rejects, whatever the store answers. *)
Lemma createNewBlock_never_rejects (env : Env) (act : JSON) (w : World) :
  outcome (createNewBlock env act) w = Fulfilled tt.
Proof.
  unfold outcome.
  destruct (getFault env) as [e|] eqn:Hg.
  - now rewrite (createNewBlock_get_fails env act w e Hg).
  - destruct (addAnswer env) as [id|e] eqn:Ha.
    + now rewrite (createNewBlock_ok env act w id Hg Ha).
    + now rewrite (createNewBlock_add_fails env act w e Hg Ha).
Qed.

(** C9, as stated, fails: an event stamped 1000 by the client and chained
    when the watcher's clock reads 5000 gives a block whose hashed
    [timestamp] is 5000, and the field the latest-block query sorts on is
    that same hashed [timestamp]. *)
Lemma C9_counterexample :
  let env := Sample.ok 5000 "a" in
  let w := exec (createNewBlock env Sample.upload) emptyWorld in
  exists b : Block,
    blockchain w = [("a", b)]
    /\ getProp (activity b) "timestamp" = Some (JNum 1000)
    /\ JNum (nb_timestamp (contentOf b)) <> JNum 1000
    /\ orderKey ("a", b) = nb_timestamp (contentOf b).
Proof.
  eexists. split; [vm_compute; reflexivity|].
  split; [reflexivity|]. split; [discriminate | reflexivity].
Qed.

(** C9, amended. The [timestamp] hashed into a block is the watcher's own
    clock reading taken when the block is built, whatever the event
    carries; the event's timestamp is hashed only as part of the activity
    payload; and the latest-block query sorts on that same stored
    [timestamp]: the document it returns first has the greatest one. *)
Theorem C9_one_timestamp_source
    (env : Env) (act : JSON) (w : World) (id : DocId) (b : Block) :
  blockchain (exec (createNewBlock env act) w) = (blockchain w ++ [(id, b)])%list ->
  timestamp b = now env
  /\ activity b = act
  /\ hash b = CryptoJS.SHA256
               (JSON_stringify
                  (JObj [ ("timestamp", JNum (now env));
                          ("activity", act);
                          ("previousHash", JStr (previousHash b)) ]))
  /\ orderKey (id, b) = now env
  /\ (forall d rest,
        orderBy Desc (blockchain (exec (createNewBlock env act) w)) = d :: rest ->
        forall d', In d' (blockchain (exec (createNewBlock env act) w)) ->
                   (timestamp (snd d') <= timestamp (snd d))%Z).
Proof.
  intros H. apply createNewBlock_created in H as Hb. destruct Hb as [-> _].
  repeat split; try reflexivity.
  intros d rest E d' Hin. apply orderBy_Desc_head in E as [_ Hmax].
  apply (Hmax d' Hin).
Qed.

(** C9 on sample data. *)
Lemma C9_witness :
  let env := Sample.ok 5000 "a" in
  let w := emptyWorld in
  let b := blockFor 5000 Sample.upload [] in
  timestamp b = now env
  /\ activity b = Sample.upload
  /\ hash b = CryptoJS.SHA256
               (JSON_stringify
                  (JObj [ ("timestamp", JNum (now env));
                          ("activity", Sample.upload);
                          ("previousHash", JStr (previousHash b)) ]))
  /\ orderKey ("a", b) = now env
  /\ (forall d rest,
        orderBy Desc (blockchain (exec (createNewBlock env Sample.upload) w)) = d :: rest ->
        forall d', In d' (blockchain (exec (createNewBlock env Sample.upload) w)) ->
                   (timestamp (snd d') <= timestamp (snd d))%Z).
Proof.
  intros env w b.
  apply (C9_one_timestamp_source env Sample.upload w "a" b).
  vm_compute. reflexivity.
Defined.

(** ** Chains built one call at a time *)

Section Chains.

Lemma linkedFrom_app prev l b :
  linkedFrom prev (l ++ [b]) <->
  linkedFrom prev l /\ previousHash b = lastHash prev l
  /\ hash b = blockHashOf (contentOf b).
Proof.
  revert prev. induction l as [|a l IH]; intros prev; simpl.
  - tauto.
  - rewrite IH. tauto.
Qed.

Lemma linkedFrom_positions prev chain :
  linkedFrom prev chain ->
  (forall b, nth_error chain 0 = Some b -> previousHash b = prev)
  /\ (forall i p b, nth_error chain i = Some p -> nth_error chain (S i) = Some b ->
                    previousHash b = hash p)
  /\ (forall b, In b chain -> hash b = blockHashOf (contentOf b)).
Proof.
  revert prev. induction chain as [|a rest IH]; intros prev H.
  - repeat split; intros; first [discriminate | contradiction].
  - simpl in H. destruct H as (Hp & Hd & Hrest).
    destruct (IH _ Hrest) as (IH0 & IHi & IHd).
    split; [|split].
    + intros b E. injection E as <-. exact Hp.
    + intros [|i] p b Ep Eb; simpl in Ep, Eb.
      * injection Ep as <-. now apply IH0.
      * now apply (IHi i).
    + intros b [->|Hin]; [exact Hd | now apply IHd].
Qed.

Lemma linkedFrom_linked chain : linkedFrom "0" chain -> linked chain.
Proof.
  intros H. destruct (linkedFrom_positions _ _ H) as (H0 & Hi & Hd).
  constructor; assumption.
Qed.

Lemma sorted_app_prefix (l1 l2 : list Z) :
  StronglySorted Z.lt (l1 ++ l2) -> StronglySorted Z.lt l1.
Proof.
  induction l1 as [|a l1 IH]; simpl; intros H; [constructor|].
  inversion H as [|? ? Hs Hall]; subst. constructor; [now apply IH|].
  now apply Forall_app in Hall as [H1 _].
Qed.

Lemma timestampsOf_app l id b :
  timestampsOf (l ++ [(id, b)]) = (timestampsOf l ++ [timestamp b])%list.
Proof. unfold timestampsOf. now rewrite map_app. Qed.

Lemma readings_cons env act calls :
  readings ((env, act) :: calls)
  = match getFault env, addAnswer env with
    | None, Fulfilled _ => now env :: readings calls
    | _, _ => readings calls
    end.
Proof.
  unfold readings, storesBlock. simpl.
  destruct (getFault env); [reflexivity|].
  destruct (addAnswer env); reflexivity.
Qed.

(** The invariant of one-at-a-time processing under a rising clock: the
    store is in timestamp order, older than every reading to come, and
    linked from the sentinel. *)
Lemma processAll_linked (calls : list (Env * JSON)) :
  forall w : World,
    StronglySorted Z.lt (timestampsOf (blockchain w) ++ readings calls) ->
    linkedFrom "0" (blocksAdded w) ->
    StronglySorted Z.lt (timestampsOf (blockchain (processAll calls w)))
    /\ linkedFrom "0" (blocksAdded (processAll calls w)).
Proof.
  induction calls as [|[env act] calls IH]; intros w Hs Hl.
  - simpl in *. rewrite app_nil_r in Hs. now split.
  - cbn [processAll fold_left fst snd] in *.
    rewrite readings_cons in Hs.
    pose proof (createNewBlock_blockchain env act w) as Hb.
    destruct (getFault env) as [e|].
    { apply IH; [now rewrite Hb | unfold blocksAdded; now rewrite Hb]. }
    destruct (addAnswer env) as [id|e].
    2:{ apply IH; [now rewrite Hb | unfold blocksAdded; now rewrite Hb]. }
    apply IH.
    + rewrite Hb, timestampsOf_app. simpl. now rewrite <- app_assoc.
    + unfold blocksAdded. rewrite Hb, map_app. simpl. apply linkedFrom_app.
      split; [exact Hl|]. split; [|reflexivity].
      simpl. apply tipHash_sorted. now apply sorted_app_prefix in Hs.
Qed.

(** Whatever the clock does, every stored hash is the digest of the
    block's own three properties. *)
Lemma processAll_digests (calls : list (Env * JSON)) :
  forall w : World,
    Forall (fun b => hash b = blockHashOf (contentOf b)) (blocksAdded w) ->
    Forall (fun b => hash b = blockHashOf (contentOf b)) (blocksAdded (processAll calls w)).
Proof.
  induction calls as [|[env act] calls IH]; intros w H; [exact H|].
  cbn [processAll fold_left fst snd]. apply IH.
  unfold blocksAdded. rewrite createNewBlock_blockchain.
  destruct (getFault env); [exact H|].
  destruct (addAnswer env) as [id|e]; [|exact H].
  rewrite map_app. apply Forall_app. split; [exact H|].
  constructor; [reflexivity | constructor].
Qed.

Lemma tipHash_cases (store : list Doc) :
  (store = [] /\ tipHash store = "0")
  \/ (exists d, In d store /\ tipHash store = hash (snd d)).
Proof.
  destruct store as [|x l]; [left; now split|]. right.
  unfold tipHash.
  destruct (orderBy Desc (x :: l)) as [|d rest] eqn:E.
  - exfalso. now apply (orderBy_nonempty Desc (x :: l)).
  - exists d. split; [|reflexivity].
    apply (orderBy_In Desc). rewrite E. now left.
Qed.

Lemma createNewBlock_pointsBack env act w :
  pointsBack (blockchain w) ->
  pointsBack (blockchain (exec (createNewBlock env act) w)).
Proof.
  intros [Hh Hp]. rewrite createNewBlock_blockchain.
  destruct (getFault env); [now split|].
  destruct (addAnswer env) as [id|e]; [|now split].
  split.
  - apply Forall_app. split; [exact Hh|].
    constructor; [|constructor]. apply blockHashOf_length.
  - destruct (blockchain w) as [|d0 rest] eqn:E; simpl; [constructor|].
    apply Forall_app. split; [exact Hp|]. constructor; [|constructor].
    simpl. destruct (tipHash_cases (d0 :: rest)) as [[F _]|(d & Hin & ->)];
      [discriminate F|].
    rewrite Forall_forall in Hh. now apply Hh.
Qed.

Lemma processAll_pointsBack calls :
  forall w, pointsBack (blockchain w) -> pointsBack (blockchain (processAll calls w)).
Proof.
  induction calls as [|[env act] calls IH]; intros w H; [exact H|].
  cbn [processAll fold_left fst snd]. apply IH.
  now apply createNewBlock_pointsBack.
Qed.

End Chains.

(** C2, as stated, fails. Three events handled one at a time from an empty
    store while the watcher's clock reads 10, then 5, then 7: the third
    block links to the first one (the greatest timestamp), and read by
    ascending timestamp the chain starts with a block that is not a
    genesis block. The chain is linked neither by timestamp nor in the
    order of insertion. *)
Lemma C2_counterexample :
  ~ linked (chainOf (processAll Sample.clockSteppedBack emptyWorld))
  /\ ~ linked (blocksAdded (processAll Sample.clockSteppedBack emptyWorld)).
Proof.
  split; intros L.
  - pose proof (linked_genesis _ L) as G. vm_compute in G.
    specialize (G _ eq_refl). discriminate G.
  - pose proof (linked_previous _ L 1%nat) as G. vm_compute in G.
    specialize (G _ _ eq_refl eq_refl). discriminate G.
Qed.

(** C2, amended. In every store reached from the empty one by handling
    events one at a time, every block's [hash] is the digest of the
    serialization of its own timestamp, activity and previousHash; and
    when the clock readings stored as timestamps go strictly up from one
    stored block to the next, the chain is linked: read by ascending
    timestamp, which is then the order of insertion, the first block has
    [previousHash] ["0"] and every later block has the [hash] of the block
    before it as [previousHash]. *)
Theorem C2_linked_under_rising_clock (calls : list (Env * JSON)) :
  (forall b, In b (chainOf (processAll calls emptyWorld)) ->
             hash b = blockHashOf (contentOf b))
  /\ (clockIncreasing calls ->
      linked (chainOf (processAll calls emptyWorld))
      /\ chainOf (processAll calls emptyWorld)
         = blocksAdded (processAll calls emptyWorld)).
Proof.
  split.
  - intros b Hin. unfold chainOf in Hin. apply in_map_iff in Hin as (d & <- & Hd).
    apply (proj1 (orderBy_In Asc _ _)) in Hd.
    pose proof (processAll_digests calls emptyWorld (Forall_nil _)) as Hall.
    rewrite Forall_forall in Hall. apply Hall. unfold blocksAdded.
    apply in_map_iff. exists d. split; [reflexivity | exact Hd].
  - intros Hc.
    destruct (processAll_linked calls emptyWorld) as [Hs Hl]; [exact Hc | exact I |].
    assert (E : chainOf (processAll calls emptyWorld)
                = blocksAdded (processAll calls emptyWorld)).
    { unfold chainOf, blocksAdded. now rewrite orderBy_Asc_sorted. }
    split; [|exact E]. rewrite E. now apply linkedFrom_linked.
Qed.

(** C2 on sample data. *)
Lemma C2_witness :
  let calls := [ (Sample.ok 10 "a", Sample.upload); (Sample.ok 20 "b", Sample.delete) ] in
  clockIncreasing calls
  /\ linked (chainOf (processAll calls emptyWorld))
  /\ chainOf (processAll calls emptyWorld) = blocksAdded (processAll calls emptyWorld).
Proof.
  intros calls.
  assert (Hc : clockIncreasing calls).
  { unfold clockIncreasing, readings. simpl. repeat constructor. }
  split; [exact Hc|].
  exact (proj2 (C2_linked_under_rising_clock calls) Hc).
Defined.

(** C10, as stated, fails for the watcher. One snapshot brings two added
    documents; the listener starts a block creation for each without
    awaiting it, both query the still empty store before either stores its
    block, and both blocks are stored with [previousHash] ["0"]. *)
Lemma C10_counterexample :
  let w := world (run Sample.twoInOneSnapshot (startScript [] [])) in
  exists d0 d1 : Doc,
    blockchain w = [d0; d1]
    /\ previousHash (snd d0) = "0"
    /\ previousHash (snd d1) = "0"
    /\ nth_error (chainOf w) 1 = Some (snd d1).
Proof.
  do 2 eexists. split; [vm_compute; reflexivity|].
  split; [reflexivity|]. split; [reflexivity|].
  vm_compute. reflexivity.
Qed.

(** C10, amended. Whatever the previous hash, the payload and the clock
    reading, the hash computed for a new block is a string of 64 lowercase
    hexadecimal digits, so never the sentinel ["0"]; consequently, in a
    store filled from empty by block creations run one at a time, the only
    block whose [previousHash] is ["0"] is the first one stored. *)
Theorem C10_sentinel_only_first :
  (forall nb : NewBlock,
      String.length (blockHashOf nb) = 64%nat
      /\ Forall (fun c => isHexDigit c = true) (list_ascii_of_string (blockHashOf nb))
      /\ blockHashOf nb <> "0")
  /\ (forall (calls : list (Env * JSON)) (i : nat) (d : Doc),
        nth_error (blockchain (processAll calls emptyWorld)) i = Some d ->
        previousHash (snd d) = "0" -> i = 0%nat).
Proof.
  split.
  - intros nb. split; [apply blockHashOf_length|].
    split; [apply SHA256_hex | apply blockHashOf_not_sentinel].
  - intros calls i d Hn Hz.
    assert (Hpb : pointsBack (blockchain (processAll calls emptyWorld))).
    { apply processAll_pointsBack. split; [constructor | exact I]. }
    destruct Hpb as [_ Hp].
    destruct (blockchain (processAll calls emptyWorld)) as [|d0 rest]; [destruct i; discriminate|].
    destruct i as [|i]; [reflexivity|]. simpl in Hn.
    apply nth_error_In in Hn. rewrite Forall_forall in Hp.
    specialize (Hp d Hn). rewrite Hz in Hp. discriminate Hp.
Qed.

(** C10 on sample data. *)
Lemma C10_witness :
  let calls := [ (Sample.ok 10 "a", Sample.upload); (Sample.ok 20 "b", Sample.delete) ] in
  let d := ("a", blockFor 10 Sample.upload []) in
  nth_error (blockchain (processAll calls emptyWorld)) 0 = Some d
  /\ previousHash (snd d) = "0"
  /\ 0%nat = 0%nat.
Proof.
  intros calls d.
  assert (Hn : nth_error (blockchain (processAll calls emptyWorld)) 0 = Some d)
    by (vm_compute; reflexivity).
  split; [exact Hn|]. split; [reflexivity|].
  exact (proj2 C10_sentinel_only_first calls 0%nat d Hn eq_refl).
Defined.

(** ** The listener *)

Section Listener.

Lemma onChange_tasks p c :
  tasks (onChange p c)
  = (tasks p ++ (if isAdded c then [AwaitQuery (snd (change_doc c))] else []))%list.
Proof.
  unfold onChange. destruct (isAdded c); simpl; [reflexivity|].
  now rewrite app_nil_r.
Qed.

Lemma onSnapshotCallback_tasks docChanges :
  forall p,
    tasks (onSnapshotCallback docChanges p)
    = (tasks p ++ map (fun c => AwaitQuery (snd (change_doc c)))
                     (filter isAdded docChanges))%list.
Proof.
  unfold onSnapshotCallback.
  induction docChanges as [|c cs IH]; intros p; simpl.
  - now rewrite app_nil_r.
  - rewrite IH, onChange_tasks. destruct (isAdded c); simpl.
    + now rewrite <- app_assoc.
    + now rewrite app_nil_r.
Qed.

(** A modified or removed document changes nothing at all. *)
Lemma onChange_not_added p c : change_type c <> added -> onChange p c = p.
Proof.
  unfold onChange, isAdded. destruct (change_type c); [congruence | reflexivity..].
Qed.

Lemma nth_error_replaceNth {A} (l : list A) (t t' : A) :
  nth_error (l ++ [t]) (List.length l) = Some t
  /\ replaceNth (List.length l) t' (l ++ [t]) = (l ++ [t'])%list.
Proof.
  induction l as [|a l [IH1 IH2]]; simpl; [now split|].
  split; [exact IH1 | now rewrite IH2].
Qed.

Lemma resume_query_ok (act : JSON) (clock : Z) (w : World) :
  resumeTask (QueryAnswered None clock) (AwaitQuery act) w
  = (Fulfilled (AwaitAdd (blockFor clock act (blockchain w))),
     mkWorld (blockchain w)
             (console w ++ linkLines clock act (blockchain w))%list
             (requests w ++ [ReqGetLatest])%list).
Proof.
  unfold resumeTask, tryCatch, bind, getLatest.
  cbn [blockchain console requests]. rewrite linkBlock_run. reflexivity.
Qed.

Lemma resume_add_ok (b : Block) (id : DocId) (w : World) :
  resumeTask (AddAnswered (Fulfilled id)) (AwaitAdd b) w
  = (Fulfilled Finished,
     mkWorld (blockchain w ++ [(id, b)])%list
             (console w ++ [LogBlockAdded])%list
             (requests w ++ [ReqAdd b])%list).
Proof. reflexivity. Qed.

Lemma step_resumed (p : Process) (i : nat) (r : Resume) (t t' : Task) (w' : World) :
  nth_error (tasks p) i = Some t ->
  resumeTask r t (world p) = (Fulfilled t', w') ->
  step p (Resumed i r) = mkProcess w' (replaceNth i t' (tasks p)).
Proof. intros Hn Hr. unfold step. now rewrite Hn, Hr. Qed.

(** A change that is the only one of its snapshot and whose call is
    carried through both awaits before anything else happens is one run
    of [createNewBlock]. *)
Lemma run_one_at_a_time (p : Process) (d : ActivityDoc) (clock : Z) (id : DocId) :
  world (run (Snapshot [mkChange added d]
                :: Sample.finishTask (List.length (tasks p)) clock id) p)
  = exec (createNewBlock (Sample.ok clock id) (snd d)) (world p).
Proof.
  unfold exec. rewrite (createNewBlock_ok (Sample.ok clock id) (snd d) (world p) id)
    by reflexivity.
  destruct p as [w ts].
  set (b := blockFor clock (snd d) (blockchain w)).
  destruct (nth_error_replaceNth ts (AwaitQuery (snd d)) (AwaitAdd b)) as [E1 E2].
  destruct (nth_error_replaceNth ts (AwaitAdd b) Finished) as [E3 E4].
  subst b.
  unfold run, Sample.finishTask. cbn [fold_left].
  set (p1 := step (mkProcess w ts) (Snapshot [mkChange added d])).
  assert (Hp1 : p1 = mkProcess (mkWorld (blockchain w) (console w ++ [LogNewActivity])%list
                                        (requests w))
                               (ts ++ [AwaitQuery (snd d)])%list) by reflexivity.
  rewrite Hp1. clear p1 Hp1.
  rewrite (step_resumed (mkProcess _ (ts ++ [AwaitQuery (snd d)])) _ _ _ _ _
             E1 (resume_query_ok _ _ _)).
  cbn [tasks world blockchain console requests]. rewrite E2.
  rewrite (step_resumed (mkProcess _ (ts ++ [AwaitAdd _])) _ _ _ _ _
             E3 (resume_add_ok _ _ _)).
  cbn [world blockchain console requests snd now Sample.ok].
  rewrite <- !app_assoc. reflexivity.
Qed.

(** The task is [createNewBlock] cut at its awaits, faults included. *)
Lemma createNewBlock_as_task (env : Env) (act : JSON) (w : World) :
  exec (createNewBlock env act) w
  = let w1 := exec (startCreateNewBlock act) w in
    match resumeTask (QueryAnswered (getFault env) (now env)) (AwaitQuery act) w1 with
    | (Fulfilled (AwaitAdd b), w2) =>
        exec (resumeTask (AddAnswered (addAnswer env)) (AwaitAdd b)) w2
    | (_, w2) => w2
    end.
Proof.
  unfold exec at 1.
  destruct (getFault env) as [e|] eqn:Hg.
  - rewrite (createNewBlock_get_fails env act w e Hg).
    cbn. rewrite <- !app_assoc. reflexivity.
  - cbn [exec startCreateNewBlock bind consoleLog ret snd].
    rewrite resume_query_ok. cbn [blockchain console requests].
    destruct (addAnswer env) as [id|e] eqn:Ha.
    + rewrite (createNewBlock_ok env act w id Hg Ha).
      unfold exec. rewrite resume_add_ok. cbn. rewrite <- !app_assoc. reflexivity.
    + rewrite (createNewBlock_add_fails env act w e Hg Ha).
      cbn. rewrite <- !app_assoc. reflexivity.
Qed.

End Listener.

(** C5. For every change a snapshot delivers, the listener starts a block
    creation exactly when the change's type is ['added']: the calls in
    flight grow by one call per added change, in order, and a modified or
    removed change starts none.  A document already in the collection when
    the listener is attached is nevertheless chained again: the first
    snapshot lists it as added, so starting the script starts one block
    creation per document of the log.  Here the script runs on a log
    holding one event, chains it, is started again on the same log and
    the resulting store, and chains the same event a second time. *)
Theorem C5_added_only_but_rechained_on_start :
  (forall (docChanges : list DocumentChange) (p : Process),
      tasks (onSnapshotCallback docChanges p)
      = (tasks p ++ map (fun c => AwaitQuery (snd (change_doc c)))
                       (filter isAdded docChanges))%list)
  /\ (forall (activityLogs : list ActivityDoc) (store : list Doc),
        tasks (startScript activityLogs store)
        = map (fun d => AwaitQuery (snd d)) activityLogs)
  /\ (let activityLogs := [("e1", Sample.upload)] in
      let firstRun := run (Sample.finishTask 0 10 "a") (startScript activityLogs []) in
      let store := blockchain (world firstRun) in
      let secondRun := run (Sample.finishTask 0 20 "b") (startScript activityLogs store) in
      map activity (blocksAdded (world firstRun)) = [Sample.upload]
      /\ map activity (blocksAdded (world secondRun)) = [Sample.upload; Sample.upload]).
Proof.
  split; [exact onSnapshotCallback_tasks|]. split.
  - intros activityLogs store. unfold startScript, step.
    rewrite onSnapshotCallback_tasks. unfold initialSnapshot. simpl.
    induction activityLogs as [|d ds IH]; simpl; [reflexivity|].
    now rewrite IH.
  - split; vm_compute; reflexivity.
Qed.



(** ** Clearing a collection *)

Section Clearing.

Context {A : Type}.

Lemma length_limitGet (n : nat) (docs : list A) :
  List.length (limitGet n docs) = Nat.min n (List.length docs).
Proof. apply length_firstn. Qed.

Lemma length_deleteFirst (n : nat) (docs : list A) :
  List.length (deleteFirst n docs) = (List.length docs - n)%nat.
Proof. apply length_skipn. Qed.

Lemma limitGet_deleteFirst (n : nat) (docs : list A) :
  (limitGet n docs ++ deleteFirst n docs)%list = docs.
Proof. apply firstn_skipn. Qed.

Lemma clearCollection_body (c : Collection A) :
  clearCollection c
  = match limitGet 500 (documents c) with
    | [] => mkCollection (documents c) (batches c) (messages c ++ [LogAlreadyEmpty])%list
    | d :: ds =>
        let snapshot := d :: ds in
        let c' := mkCollection (deleteFirst 500 (documents c))
                               (batches c ++ [snapshot])%list
                               (messages c ++ [LogCleared (List.length snapshot)])%list in
        if Nat.eqb (List.length snapshot) 500 then clearCollection c' else c'
    end.
Proof.
  rewrite clearCollection_equation_1.
  unfold clearCollection_unfold_clause_1, inspect.
  destruct (limitGet 500 (documents c)); reflexivity.
Qed.

(** On an empty collection: the message of line 96, and nothing else. *)
Lemma clearCollection_empty (c : Collection A) :
  documents c = [] ->
  clearCollection c
  = mkCollection [] (batches c) (messages c ++ [LogAlreadyEmpty])%list.
Proof.
  intros E. rewrite clearCollection_body, E. reflexivity.
Qed.

(** One page of a collection that is not empty. *)
Lemma clearCollection_page (c : Collection A) :
  documents c <> [] ->
  clearCollection c
  = let snapshot := limitGet 500 (documents c) in
    let c' := mkCollection (deleteFirst 500 (documents c))
                           (batches c ++ [snapshot])%list
                           (messages c ++ [LogCleared (List.length snapshot)])%list in
    if Nat.eqb (List.length snapshot) 500 then clearCollection c' else c'.
Proof.
  intros Hne. rewrite clearCollection_body.
  destruct (limitGet 500 (documents c)) as [|d ds] eqn:E; [|reflexivity].
  exfalso. apply Hne. apply length_zero_iff_nil.
  apply (f_equal (@List.length A)) in E. rewrite length_limitGet in E.
  cbn [List.length] in E. lia.
Qed.

Lemma nonempty_of_length (docs : list A) : (0 < List.length docs)%nat -> docs <> [].
Proof. intros H E. rewrite E in H. simpl in H. lia. Qed.

End Clearing.

(** C7. Clearing a collection of exactly 1200 documents commits exactly
    three batches, of 500, 500 and 200 documents, and leaves the collection
    empty; clearing an empty collection deletes nothing and commits no
    batch. *)
Theorem C7_clear_in_pages {A : Type} (c : Collection A) :
  (List.length (documents c) = 1200%nat ->
   exists page1 page2 page3 : list A,
     documents c = (page1 ++ page2 ++ page3)%list
     /\ List.length page1 = 500%nat
     /\ List.length page2 = 500%nat
     /\ List.length page3 = 200%nat
     /\ clearCollection c
        = mkCollection []
            (batches c ++ [page1; page2; page3])%list
            (messages c ++ [LogCleared 500; LogCleared 500; LogCleared 200])%list)
  /\ (documents c = [] ->
      clearCollection c
      = mkCollection [] (batches c) (messages c ++ [LogAlreadyEmpty])%list).
Proof.
  split; [|apply clearCollection_empty].
  intros L.
  set (docs := documents c) in *.
  set (page1 := limitGet 500 docs).
  set (rest1 := deleteFirst 500 docs).
  set (page2 := limitGet 500 rest1).
  set (rest2 := deleteFirst 500 rest1).
  set (page3 := limitGet 500 rest2).
  assert (L1 : List.length page1 = 500%nat).
  { unfold page1. rewrite length_limitGet. lia. }
  assert (R1 : List.length rest1 = 700%nat).
  { unfold rest1. rewrite length_deleteFirst. lia. }
  assert (L2 : List.length page2 = 500%nat).
  { unfold page2. rewrite length_limitGet. lia. }
  assert (R2 : List.length rest2 = 200%nat).
  { unfold rest2. rewrite length_deleteFirst. lia. }
  assert (L3 : List.length page3 = 200%nat).
  { unfold page3. rewrite length_limitGet. lia. }
  assert (R3 : deleteFirst 500 rest2 = []).
  { apply length_zero_iff_nil. rewrite length_deleteFirst. lia. }
  assert (P3 : page3 = rest2).
  { pose proof (limitGet_deleteFirst 500 rest2) as E.
    rewrite R3, app_nil_r in E. exact E. }
  exists page1, page2, page3. repeat split; try assumption.
  - rewrite P3. unfold page2, rest2. rewrite limitGet_deleteFirst.
    unfold page1, rest1. now rewrite limitGet_deleteFirst.
  - rewrite clearCollection_page by (apply nonempty_of_length; fold docs; lia).
    fold docs. fold page1. fold rest1. cbv zeta. rewrite L1, Nat.eqb_refl.
    rewrite clearCollection_page by (apply nonempty_of_length; cbn [documents]; lia).
    cbn [documents batches messages]. fold page2. fold rest2. cbv zeta.
    rewrite L2, Nat.eqb_refl.
    rewrite clearCollection_page by (apply nonempty_of_length; cbn [documents]; lia).
    cbn [documents batches messages]. fold page3. cbv zeta.
    rewrite L3, R3.
    replace (Nat.eqb 200 500) with false by reflexivity.
    rewrite <- !app_assoc. reflexivity.
Qed.

(** C7 on sample data. *)
Lemma C7_witness :
  let c := mkCollection (seq 0 1200) [] [] in
  exists page1 page2 page3 : list nat,
    documents c = (page1 ++ page2 ++ page3)%list
    /\ List.length page1 = 500%nat
    /\ List.length page2 = 500%nat
    /\ List.length page3 = 200%nat
    /\ clearCollection c
       = mkCollection []
           (batches c ++ [page1; page2; page3])%list
           (messages c ++ [LogCleared 500; LogCleared 500; LogCleared 200])%list.
Proof.
  intros c. apply (proj1 (C7_clear_in_pages c)). apply length_seq.
Defined.

Example clearCollection_1200_runs :
  map (@List.length nat) (batches (clearCollection (mkCollection (seq 0 1200) [] [])))
  = [500; 500; 200]%nat.
Proof. vm_compute. reflexivity. Qed.

(** ** The verifier *)

Section Verifier.

Import ChainVerifier VerifierSpec.






(** A chain linked from the sentinel verifies. *)
Lemma verifyFrom_linkedFrom (chain : list Block) :
  forall (i : nat) (prev : string),
    linkedFrom prev chain -> verifyFrom i prev chain = Valid.
Proof.
  induction chain as [|b rest IH]; intros i prev H; [reflexivity|].
  simpl in H. destruct H as (Hp & Hd & Hrest). simpl.
  rewrite Hp, String.eqb_refl. simpl.
  unfold hashMatches. rewrite <- Hd, String.eqb_refl. simpl. now apply IH.
Qed.




Lemma verify_linkedFrom (chain : list Block) :
  linkedFrom "0" chain -> verify chain = Valid.
Proof.
  destruct chain as [|b rest]; [reflexivity|].
  intros (Hp & Hd & Hrest). unfold verify.
  rewrite Hp, String.eqb_refl. simpl.
  unfold hashMatches. rewrite <- Hd, String.eqb_refl. simpl.
  now apply verifyFrom_linkedFrom.
Qed.

End Verifier.




(** Events handled one at a time under a rising clock leave a chain that
    verifies. *)
Corollary verify_chain_built_in_order (calls : list (Env * JSON)) :
  clockIncreasing calls ->
  ChainVerifier.verify (chainOf (processAll calls emptyWorld)) = ChainVerifier.Valid.
Proof.
  intros Hc.
  destruct (processAll_linked calls emptyWorld) as [Hs Hl]; [exact Hc | exact I |].
  unfold chainOf. rewrite orderBy_Asc_sorted by exact Hs.
  now apply verify_linkedFrom.
Qed.

(* ===================================================================== *)
(** * Further properties of the code *)

(** ** [clearCollection] on a collection of any size *)

Section ClearingAnySize.

Context {A : Type}.

(** X1. Whatever the size of the collection, [clearCollection] returns
    with the collection empty; the batches it committed are the documents
    cut in order into pages, every page but the last of exactly 500
    documents and none empty or larger; one message is logged per page,
    and the "already empty" message is logged exactly when the size is a
    multiple of 500 (zero included), which costs one more, empty, fetch. *)
Theorem clearCollection_any_size (c : Collection A) :
  exists pages : list (list A),
    clearCollection c
    = mkCollection []
        (batches c ++ pages)%list
        (messages c ++ map clearedMessage pages
           ++ (if Nat.eqb (List.length (documents c) mod 500) 0
               then [LogAlreadyEmpty] else []))%list
    /\ List.concat pages = documents c
    /\ Forall (fun page => (0 < List.length page <= 500)%nat) pages
    /\ Forall (fun page => List.length page = 500%nat) (removelast pages)
    /\ List.length pages = ((List.length (documents c) + 499) / 500)%nat.
Proof.
  remember (List.length (documents c)) as n eqn:Hn.
  revert c Hn. induction n as [n IH] using lt_wf_ind. intros c Hn.
  destruct (Nat.eq_dec n 0) as [Hz|Hpos].
  - assert (Hdocs : documents c = []) by (apply length_zero_iff_nil; lia).
    exists []. rewrite clearCollection_empty by exact Hdocs.
    rewrite Hdocs, Hz. cbn [map List.concat List.length removelast].
    rewrite !app_nil_r.
    repeat split; constructor.
  - assert (Hne : documents c <> []).
    { intros E. rewrite E in Hn. simpl in Hn. lia. }
    rewrite clearCollection_page by exact Hne. cbv zeta.
    set (docs := documents c) in *.
    pose proof (length_limitGet 500 docs) as Lp.
    pose proof (length_deleteFirst 500 docs) as Lr.
    pose proof (limitGet_deleteFirst 500 docs) as Hsplit.
    rewrite <- Hn in Lp, Lr.
    destruct (Nat.eqb (List.length (limitGet 500 docs)) 500) eqn:E.
    + apply Nat.eqb_eq in E.
      assert (Hge : (500 <= n)%nat) by lia.
      destruct (IH (n - 500)%nat ltac:(lia)
                   (mkCollection (deleteFirst 500 docs)
                      (batches c ++ [limitGet 500 docs])%list
                      (messages c ++ [LogCleared (List.length (limitGet 500 docs))])%list)
                   ltac:(cbn [documents]; lia))
        as (pages & Hrun & Hcat & Hall & Hfull & Hlen).
      cbn [documents batches messages] in Hrun, Hcat.
      exists (limitGet 500 docs :: pages).
      rewrite Hrun.
      replace ((n - 500) mod 500)%nat with (n mod 500)%nat.
      2:{ rewrite <- (Nat.Div0.mod_add (n - 500) 1 500).
          f_equal. lia. }
      split; [|split; [|split; [|split]]].
      * unfold clearedMessage. cbn [map]. rewrite <- !app_assoc. reflexivity.
      * cbn [List.concat]. rewrite Hcat. exact Hsplit.
      * constructor; [lia | exact Hall].
      * destruct pages as [|p ps]; [constructor|].
        change (removelast (limitGet 500 docs :: p :: ps))
          with (limitGet 500 docs :: removelast (p :: ps)).
        constructor; [exact E | exact Hfull].
      * cbn [List.length]. rewrite Hlen.
        replace (n + 499)%nat with ((n - 500 + 499) + 1 * 500)%nat by lia.
        rewrite Nat.div_add by lia. lia.
    + apply Nat.eqb_neq in E.
      assert (Hlt : (n < 500)%nat) by lia.
      assert (Hrest : deleteFirst 500 docs = []).
      { apply length_zero_iff_nil. lia. }
      exists [limitGet 500 docs].
      rewrite Hrest.
      replace (Nat.eqb (n mod 500) 0) with false.
      2:{ symmetry. apply Nat.eqb_neq. rewrite Nat.mod_small by lia. lia. }
      split; [|split; [|split; [|split]]].
      * unfold clearedMessage. cbn [map]. rewrite app_nil_r. reflexivity.
      * cbn [List.concat]. rewrite app_nil_r. rewrite <- Hsplit at 2.
        now rewrite Hrest, app_nil_r.
      * constructor; [lia | constructor].
      * constructor.
      * cbn [List.length]. symmetry.
        replace (n + 499)%nat with ((n - 1) + 1 * 500)%nat by lia.
        rewrite Nat.div_add by lia. rewrite Nat.div_small by lia. reflexivity.
Qed.

(** What a clearing leaves: no document, and one more batch per page. *)
Lemma clearCollection_result (c : Collection A) :
  documents (clearCollection c) = []
  /\ List.concat (batches (clearCollection c))
     = (List.concat (batches c) ++ documents c)%list.
Proof.
  remember (List.length (documents c)) as n eqn:Hn.
  revert c Hn. induction n as [n IH] using lt_wf_ind. intros c Hn.
  destruct (Nat.eq_dec n 0) as [Hz|Hpos].
  - assert (Hdocs : documents c = []) by (apply length_zero_iff_nil; lia).
    rewrite clearCollection_empty by exact Hdocs.
    cbn [documents batches]. rewrite Hdocs, app_nil_r. now split.
  - assert (Hne : documents c <> []).
    { intros E. rewrite E in Hn. simpl in Hn. lia. }
    rewrite clearCollection_page by exact Hne. cbv zeta.
    pose proof (length_limitGet 500 (documents c)) as Lp.
    pose proof (length_deleteFirst 500 (documents c)) as Lr.
    pose proof (limitGet_deleteFirst 500 (documents c)) as Hsplit.
    rewrite <- Hn in Lp, Lr.
    destruct (Nat.eqb (List.length (limitGet 500 (documents c))) 500) eqn:E.
    + apply Nat.eqb_eq in E.
      destruct (IH (n - 500)%nat ltac:(lia)
                   (mkCollection (deleteFirst 500 (documents c))
                      (batches c ++ [limitGet 500 (documents c)])%list
                      (messages c
                         ++ [LogCleared (List.length (limitGet 500 (documents c)))])%list)
                   ltac:(cbn [documents]; lia))
        as [Hd Hb].
      cbn [documents batches] in Hb. split; [exact Hd|].
      rewrite Hb, concat_app. cbn [List.concat].
      now rewrite app_nil_r, <- app_assoc, Hsplit.
    + apply Nat.eqb_neq in E. cbn [documents batches].
      assert (Hrest : deleteFirst 500 (documents c) = [])
        by (apply length_zero_iff_nil; lia).
      split; [exact Hrest|].
      rewrite concat_app. cbn [List.concat].
      rewrite Hrest, !app_nil_r in *. now rewrite Hsplit.
Qed.

(** X2. Clearing a second time deletes nothing more: no further batch is
    committed and the collection stays empty; only the "already empty"
    message is added. *)
Theorem clearCollection_twice (c : Collection A) :
  clearCollection (clearCollection c)
  = mkCollection []
      (batches (clearCollection c))
      (messages (clearCollection c) ++ [LogAlreadyEmpty])%list.
Proof.
  destruct (clearCollection_result c) as [Hd _].
  rewrite (clearCollection_empty (clearCollection c) Hd). reflexivity.
Qed.

End ClearingAnySize.

(** ** The listener under any order of events *)

Section AnySchedule.

Lemma resume_query_fault (act : JSON) (e : Error) (clock : Z) (w : World) :
  resumeTask (QueryAnswered (Some e) clock) (AwaitQuery act) w
  = (Fulfilled Finished,
     mkWorld (blockchain w)
             (console w ++ [LogErrorCreating e])%list
             (requests w ++ [ReqGetLatest])%list).
Proof. reflexivity. Qed.

Lemma resume_add_fault (b : Block) (e : Error) (w : World) :
  resumeTask (AddAnswered (Rejected e)) (AwaitAdd b) w
  = (Fulfilled Finished,
     mkWorld (blockchain w)
             (console w ++ [LogErrorCreating e])%list
             (requests w ++ [ReqAdd b])%list).
Proof. reflexivity. Qed.

(** Resuming a call never rejects, and moves it in one of four ways. *)
Lemma resumeTask_move (r : Resume) (t : Task) (w : World) :
  exists (t' : Task) (w' : World) (stored : list Doc),
    resumeTask r t w = (Fulfilled t', w')
    /\ blockchain w' = (blockchain w ++ stored)%list
    /\ taskMove (blockchain w) t t' stored.
Proof.
  destruct t as [act|b|]; destruct r as [[e|] clock|[id|e]];
    try (exists t, w, []; subst t; split; [reflexivity|];
         split; [now rewrite app_nil_r | constructor]).
  - eexists _, _, []. rewrite resume_query_fault.
    split; [reflexivity|]. split; [now rewrite app_nil_r | constructor].
  - eexists _, _, []. rewrite resume_query_ok.
    split; [reflexivity|]. split; [now rewrite app_nil_r | constructor].
  - exists (AwaitQuery act), w, []. split; [reflexivity|].
    split; [now rewrite app_nil_r | constructor].
  - exists (AwaitQuery act), w, []. split; [reflexivity|].
    split; [now rewrite app_nil_r | constructor].
  - exists (AwaitAdd b), w, []. split; [reflexivity|].
    split; [now rewrite app_nil_r | constructor].
  - exists (AwaitAdd b), w, []. split; [reflexivity|].
    split; [now rewrite app_nil_r | constructor].
  - eexists _, _, [(id, b)]. rewrite resume_add_ok.
    split; [reflexivity|]. split; [reflexivity | constructor].
  - eexists _, _, []. rewrite resume_add_fault.
    split; [reflexivity|]. split; [now rewrite app_nil_r | constructor].
  - exists Finished, w, []. split; [reflexivity|].
    split; [now rewrite app_nil_r | constructor].
  - exists Finished, w, []. split; [reflexivity|].
    split; [now rewrite app_nil_r | constructor].
  - exists Finished, w, []. split; [reflexivity|].
    split; [now rewrite app_nil_r | constructor].
  - exists Finished, w, []. split; [reflexivity|].
    split; [now rewrite app_nil_r | constructor].
Qed.

Lemma onChange_blockchain p c :
  blockchain (world (onChange p c)) = blockchain (world p).
Proof. unfold onChange. destruct (isAdded c); reflexivity. Qed.

Lemma onSnapshotCallback_blockchain docChanges :
  forall p, blockchain (world (onSnapshotCallback docChanges p)) = blockchain (world p).
Proof.
  unfold onSnapshotCallback.
  induction docChanges as [|c cs IH]; intros p; simpl; [reflexivity|].
  now rewrite IH, onChange_blockchain.
Qed.

(** A step either hands new payloads to new calls and leaves the store
    alone, or moves one call. *)
Lemma step_cases (p : Process) (ev : Event) :
  (blockchain (world (step p ev)) = blockchain (world p)
   /\ tasks (step p ev) = (tasks p ++ map AwaitQuery (deliveredAdded [ev]))%list)
  \/ (deliveredAdded [ev] = []
      /\ exists i t t' stored,
           nth_error (tasks p) i = Some t
           /\ taskMove (blockchain (world p)) t t' stored
           /\ blockchain (world (step p ev)) = (blockchain (world p) ++ stored)%list
           /\ tasks (step p ev) = replaceNth i t' (tasks p)).
Proof.
  destruct ev as [docChanges|err|i r].
  - left. cbn [step deliveredAdded flat_map]. rewrite app_nil_r.
    split; [apply onSnapshotCallback_blockchain|].
    rewrite onSnapshotCallback_tasks, map_map. reflexivity.
  - left. cbn. now rewrite app_nil_r.
  - cbn [step]. destruct (nth_error (tasks p) i) as [t|] eqn:Hn.
    + right. split; [reflexivity|].
      destruct (resumeTask_move r t (world p)) as (t' & w' & stored & Hr & Hb & Hm).
      rewrite Hr. exists i, t, t', stored. cbn [world tasks]. auto.
    + left. cbn. now rewrite app_nil_r.
Qed.

Lemma run_snoc evs ev p : run (evs ++ [ev]) p = step (run evs p) ev.
Proof. unfold run. now rewrite fold_left_app. Qed.

Lemma deliveredAdded_snoc evs ev :
  deliveredAdded (evs ++ [ev]) = (deliveredAdded evs ++ deliveredAdded [ev])%list.
Proof. unfold deliveredAdded. now rewrite flat_map_app. Qed.

Lemma Forall_replaceNth {A} (P : A -> Prop) (l : list A) (i : nat) (x : A) :
  Forall P l -> P x -> Forall P (replaceNth i x l).
Proof.
  revert i. induction l as [|a l IH]; intros i Hl Hx; [destruct i; constructor|].
  inversion Hl; subst. destruct i; simpl; constructor; auto.
Qed.

Lemma length_replaceNth {A} (l : list A) (i : nat) (x : A) :
  List.length (replaceNth i x l) = List.length l.
Proof.
  revert i. induction l as [|a l IH]; intros i; [destruct i; reflexivity|].
  destruct i; simpl; [reflexivity | now rewrite IH].
Qed.

Lemma inFlight_cons t ts : inFlight (t :: ts) = (flying t + inFlight ts)%nat.
Proof. unfold inFlight. destruct t; reflexivity. Qed.

Lemma inFlight_replaceNth (ts : list Task) (i : nat) (t t' : Task) :
  nth_error ts i = Some t ->
  (inFlight (replaceNth i t' ts) + flying t = inFlight ts + flying t')%nat.
Proof.
  revert i. induction ts as [|a ts IH]; intros i H; [destruct i; discriminate|].
  destruct i as [|i]; simpl in H.
  - injection H as ->. cbn [replaceNth]. rewrite !inFlight_cons. lia.
  - cbn [replaceNth]. rewrite !inFlight_cons. specialize (IH i H). lia.
Qed.

Lemma inFlight_app_queries ts acts :
  inFlight (ts ++ map AwaitQuery acts) = (inFlight ts + List.length acts)%nat.
Proof.
  unfold inFlight. rewrite filter_app, length_app. f_equal.
  induction acts as [|a acts IH]; simpl; [reflexivity | now rewrite IH].
Qed.

(** X3. Whatever the listener receives and in whatever order the awaited
    requests settle, the script only ever appends to the [blockchain]
    collection: every block stored stays where it is, unchanged. *)
Theorem run_append_only (evs : list Event) (p : Process) :
  exists stored : list Doc,
    blockchain (world (run evs p)) = (blockchain (world p) ++ stored)%list.
Proof.
  induction evs as [|ev evs IH] using rev_ind.
  - exists []. now rewrite app_nil_r.
  - destruct IH as (stored & IH). rewrite run_snoc.
    destruct (step_cases (run evs p) ev) as [[Hb _]|(_ & i & t & t' & more & _ & _ & Hb & _)].
    + exists stored. now rewrite Hb.
    + exists (stored ++ more)%list. now rewrite Hb, IH, app_assoc.
Qed.

End AnySchedule.

Section ScheduleInvariants.

Lemma wellLinked_more (store more : list Doc) (b : Block) :
  wellLinked store b -> wellLinked (store ++ more) b.
Proof.
  intros [Hd [Hz|(d & Hin & Hp)]]; split; auto.
  right. exists d. split; [apply in_or_app; now left | exact Hp].
Qed.

Lemma wellLinked_blockFor (clock : Z) (act : JSON) (store : list Doc) :
  wellLinked store (blockFor clock act store).
Proof.
  split; [reflexivity|]. cbn [blockFor setHash previousHash].
  destruct (tipHash_cases store) as [[_ H]|(d & Hin & H)]; [now left|].
  right. now exists d.
Qed.

Lemma linksBack_app (before store : list Doc) (d : Doc) :
  linksBack before (store ++ [d])
  <-> linksBack before store /\ wellLinked (before ++ store) (snd d).
Proof.
  revert before. induction store as [|x store IH]; intros before; simpl.
  - rewrite app_nil_r. tauto.
  - rewrite IH, <- app_assoc. simpl. tauto.
Qed.

Lemma taskFits_more (store more : list Doc) (t : Task) :
  taskFits store t -> taskFits (store ++ more) t.
Proof. destruct t; simpl; auto. apply wellLinked_more. Qed.

(** The store is linked back and every call in flight holds a block fit
    for the store as it is. *)
Lemma step_keeps_links (p : Process) (ev : Event) :
  linksBack [] (blockchain (world p)) ->
  Forall (taskFits (blockchain (world p))) (tasks p) ->
  linksBack [] (blockchain (world (step p ev)))
  /\ Forall (taskFits (blockchain (world (step p ev)))) (tasks (step p ev)).
Proof.
  intros Hs Ht.
  destruct (step_cases p ev) as [[Hb Htk]|(_ & i & t & t' & stored & Hn & Hm & Hb & Htk)];
    rewrite Hb, Htk.
  - split; [exact Hs|]. apply Forall_app. split; [exact Ht|].
    apply Forall_forall. intros t Hin. apply in_map_iff in Hin as (a & <- & _). exact I.
  - assert (Hfit : taskFits (blockchain (world p)) t).
    { rewrite Forall_forall in Ht. apply Ht. eapply nth_error_In; eassumption. }
    inversion Hm; subst; rewrite ?app_nil_r.
    + split; [exact Hs|]. now apply Forall_replaceNth.
    + split; [exact Hs|]. apply Forall_replaceNth; [exact Ht|].
      apply wellLinked_blockFor.
    + split; [exact Hs|]. apply Forall_replaceNth; [exact Ht | exact I].
    + split.
      * apply linksBack_app. split; [exact Hs | exact Hfit].
      * apply Forall_replaceNth; [|exact I].
        eapply Forall_impl; [|exact Ht]. intros a. apply taskFits_more.
Qed.

Lemma run_keeps_links (evs : list Event) (p : Process) :
  linksBack [] (blockchain (world p)) ->
  Forall (taskFits (blockchain (world p))) (tasks p) ->
  linksBack [] (blockchain (world (run evs p)))
  /\ Forall (taskFits (blockchain (world (run evs p)))) (tasks (run evs p)).
Proof.
  intros Hs Ht. induction evs as [|ev evs IH] using rev_ind; [now split|].
  rewrite run_snoc. destruct IH as [IH1 IH2]. now apply step_keeps_links.
Qed.

(** What [linksBack] says of a block at a given place of the store. *)
Lemma linksBack_at (before store : list Doc) :
  linksBack before store ->
  forall pre d post,
    store = (pre ++ d :: post)%list ->
    wellLinked (before ++ pre) (snd d).
Proof.
  revert before. induction store as [|x store IH]; intros before H pre d post E.
  - destruct pre; discriminate E.
  - simpl in H. destruct H as [Hx Hrest].
    destruct pre as [|y pre]; simpl in E; injection E as -> ->.
    + now rewrite app_nil_r.
    + specialize (IH _ Hrest pre d post eq_refl).
      now rewrite <- app_assoc in IH.
Qed.

End ScheduleInvariants.

(** X4. Started on a store in which every block hashes to its [hash] and
    points to the sentinel or to a block stored before it, the script keeps
    the store so under every order of snapshots, errors and settled
    requests: each block [d] at any place of the store has
    [hash = SHA256(JSON.stringify({timestamp, activity, previousHash}))]
    and a [previousHash] that is ["0"] or the [hash] of a block stored
    before [d].  Calls that overlap can fork the chain, they cannot leave a
    dangling link or a wrong digest. *)
Theorem run_no_dangling_link (evs : list Event) (w : World) :
  linksBack [] (blockchain w) ->
  forall pre d post,
    blockchain (world (run evs (watchActivityLog w))) = (pre ++ d :: post)%list ->
    hash (snd d) = blockHashOf (contentOf (snd d))
    /\ (previousHash (snd d) = "0"
        \/ exists d', In d' pre /\ previousHash (snd d) = hash (snd d')).
Proof.
  intros Hs pre d post E.
  destruct (run_keeps_links evs (watchActivityLog w)) as [Hl _];
    [exact Hs | constructor |].
  exact (linksBack_at [] _ Hl pre d post E).
Qed.

(** X4 on sample data: the two calls of one snapshot, started on the
    empty store, overlap. *)
Lemma run_no_dangling_link_witness :
  let w := emptyWorld in
  let p := run Sample.twoInOneSnapshot (watchActivityLog w) in
  let d0 := ("a", blockFor 10 Sample.upload []) in
  let d1 := ("b", blockFor 11 Sample.delete []) in
  linksBack [] (blockchain w)
  /\ blockchain (world p) = [d0; d1]
  /\ hash (snd d1) = blockHashOf (contentOf (snd d1))
  /\ (previousHash (snd d1) = "0"
      \/ exists d', In d' [d0] /\ previousHash (snd d1) = hash (snd d')).
Proof.
  intros w p d0 d1.
  assert (Hs : linksBack [] (blockchain w)) by exact I.
  assert (E : blockchain (world p) = ([d0] ++ d1 :: [])%list)
    by (vm_compute; reflexivity).
  split; [exact Hs|]. split; [exact E|].
  exact (run_no_dangling_link Sample.twoInOneSnapshot w Hs [d0] d1 [] E).
Defined.

(** X5. Under every order of events, the calls started are exactly the
    ['added'] changes delivered, one call each; the blocks stored plus the
    calls still in flight never outnumber them, so no call stores more than
    one block; and every block stored carries, unchanged, the payload of a
    delivered ['added'] change. *)
Theorem run_one_block_per_call (evs : list Event) (w : World) :
  let p := run evs (watchActivityLog w) in
  List.length (tasks p) = List.length (deliveredAdded evs)
  /\ (List.length (blockchain (world p)) + inFlight (tasks p)
      <= List.length (blockchain w) + List.length (deliveredAdded evs))%nat
  /\ (forall d, In d (skipn (List.length (blockchain w)) (blockchain (world p))) ->
                In (activity (snd d)) (deliveredAdded evs)).
Proof.
  cbv zeta.
  assert (H : List.length (tasks (run evs (watchActivityLog w)))
              = List.length (deliveredAdded evs)
              /\ (List.length (blockchain (world (run evs (watchActivityLog w))))
                  + inFlight (tasks (run evs (watchActivityLog w)))
                  <= List.length (blockchain w) + List.length (deliveredAdded evs))%nat
              /\ Forall (taskPayloadIn (deliveredAdded evs))
                        (tasks (run evs (watchActivityLog w)))
              /\ exists stored,
                   blockchain (world (run evs (watchActivityLog w)))
                   = (blockchain w ++ stored)%list
                   /\ Forall (fun d => In (activity (snd d)) (deliveredAdded evs)) stored).
  { induction evs as [|ev evs IH] using rev_ind.
    - cbn. split; [reflexivity|]. split; [lia|]. split; [constructor|].
      exists []. split; [now rewrite app_nil_r | constructor].
    - destruct IH as (IHl & IHc & IHp & stored & IHb & IHs).
      rewrite run_snoc, deliveredAdded_snoc, length_app.
      assert (Hwiden : forall t, taskPayloadIn (deliveredAdded evs) t ->
                                 taskPayloadIn (deliveredAdded evs ++ deliveredAdded [ev]) t).
      { intros [a|b|]; simpl; auto; intros Hin; apply in_or_app; now left. }
      destruct (step_cases (run evs (watchActivityLog w)) ev)
        as [[Hb Htk]|(Hnil & i & t & t' & more & Hn & Hm & Hb & Htk)];
        rewrite Hb, Htk.
      + rewrite length_app, length_map, inFlight_app_queries.
        split; [lia|]. split; [lia|]. split.
        * apply Forall_app. split.
          -- eapply Forall_impl; [|exact IHp]. exact Hwiden.
          -- apply Forall_forall. intros t Hin.
             apply in_map_iff in Hin as (a & <- & Ha). simpl.
             apply in_or_app. now right.
        * exists stored. split; [exact IHb|].
          eapply Forall_impl; [|exact IHs]. intros d Hd. apply in_or_app. now left.
      + rewrite Hnil, app_nil_r in *. cbn [List.length]. rewrite Nat.add_0_r.
        rewrite length_replaceNth, length_app.
        pose proof (inFlight_replaceNth _ i t t' Hn) as Hfly.
        assert (Ht : taskPayloadIn (deliveredAdded evs) t).
        { rewrite Forall_forall in IHp. apply IHp. eapply nth_error_In; eassumption. }
        split; [exact IHl|].
        inversion Hm; subst; cbn [List.length flying] in *.
        * split; [lia|]. split; [now apply Forall_replaceNth|].
          exists stored. rewrite app_nil_r. now split.
        * split; [lia|]. split; [now apply Forall_replaceNth|].
          exists stored. rewrite app_nil_r. now split.
        * split; [destruct t; cbn [flying] in Hfly; lia|].
          split; [apply Forall_replaceNth; [exact IHp | exact I]|].
          exists stored. rewrite app_nil_r. now split.
        * split; [lia|]. split; [apply Forall_replaceNth; [exact IHp | exact I]|].
          exists (stored ++ [(id, b)])%list. split; [now rewrite IHb, app_assoc|].
          apply Forall_app. split; [exact IHs|]. constructor; [exact Ht | constructor]. }
  destruct H as (Hl & Hc & _ & stored & Hb & Hs).
  split; [exact Hl|]. split; [exact Hc|].
  intros d Hin. rewrite Hb, skipn_app, skipn_all, Nat.sub_diag in Hin.
  simpl in Hin. rewrite Forall_forall in Hs. now apply Hs.
Qed.

Section Overlap.

Lemma nth_error_after {A} (ts l : list A) (k : nat) :
  nth_error (ts ++ l) (List.length ts + k) = nth_error l k.
Proof.
  rewrite nth_error_app2 by lia. f_equal. lia.
Qed.

Lemma replaceNth_after {A} (ts l : list A) (k : nat) (x : A) :
  replaceNth (List.length ts + k) x (ts ++ l) = (ts ++ replaceNth k x l)%list.
Proof.
  induction ts as [|a ts IH]; simpl; [reflexivity | now rewrite IH].
Qed.

Lemma step_resumed_after (w w' : World) (ts l : list Task) (k : nat)
    (r : Resume) (t t' : Task) :
  nth_error l k = Some t ->
  resumeTask r t w = (Fulfilled t', w') ->
  step (mkProcess w (ts ++ l)) (Resumed (List.length ts + k) r)
  = mkProcess w' (ts ++ replaceNth k t' l).
Proof.
  intros Hn Hr.
  rewrite (step_resumed (mkProcess w (ts ++ l)) _ r t t' w').
  - cbn [tasks]. now rewrite replaceNth_after.
  - cbn [tasks]. now rewrite nth_error_after.
  - exact Hr.
Qed.

End Overlap.

(** X6. Two documents added in one snapshot start two calls; when both
    latest-block queries are answered before either block is stored, the
    two blocks are stored with the same [previousHash], the hash of the
    tip the store had before (["0"] on an empty store): the chain forks,
    whatever the store, the payloads, the clock readings and the ids. *)
Theorem overlapping_calls_fork
    (p : Process) (d1 d2 : ActivityDoc) (clock1 clock2 : Z) (id1 id2 : DocId) :
  let i := List.length (tasks p) in
  let evs := [ Snapshot [ mkChange added d1; mkChange added d2 ];
               Resumed (i + 0) (QueryAnswered None clock1);
               Resumed (i + 1) (QueryAnswered None clock2);
               Resumed (i + 0) (AddAnswered (Fulfilled id1));
               Resumed (i + 1) (AddAnswered (Fulfilled id2)) ] in
  exists b1 b2 : Block,
    blockchain (world (run evs p))
    = (blockchain (world p) ++ [(id1, b1); (id2, b2)])%list
    /\ activity b1 = snd d1 /\ activity b2 = snd d2
    /\ previousHash b1 = tipHash (blockchain (world p))
    /\ previousHash b2 = previousHash b1.
Proof.
  destruct p as [w ts]. cbv zeta. cbn [tasks world].
  exists (blockFor clock1 (snd d1) (blockchain w)),
         (blockFor clock2 (snd d2) (blockchain w)).
  split; [|repeat split].
  unfold run. cbn [fold_left].
  assert (H0 : step (mkProcess w ts)
                    (Snapshot [mkChange added d1; mkChange added d2])
               = mkProcess (mkWorld (blockchain w)
                                    (console w ++ [LogNewActivity; LogNewActivity])%list
                                    (requests w))
                           (ts ++ [AwaitQuery (snd d1); AwaitQuery (snd d2)])).
  { cbn. now rewrite <- !app_assoc. }
  rewrite H0.
  erewrite (step_resumed_after _ _ ts _ 0); [|reflexivity|apply resume_query_ok].
  cbn [replaceNth blockchain console requests].
  erewrite (step_resumed_after _ _ ts _ 1); [|reflexivity|apply resume_query_ok].
  cbn [replaceNth blockchain console requests].
  erewrite (step_resumed_after _ _ ts _ 0); [|reflexivity|apply resume_add_ok].
  cbn [replaceNth blockchain console requests].
  erewrite (step_resumed_after _ _ ts _ 1); [|reflexivity|apply resume_add_ok].
  cbn [world blockchain]. now rewrite <- app_assoc.
Qed.

(** X7. Handled one at a time, every event whose two requests succeed
    adds exactly one block, in the order handled, carrying the event's
    payload unchanged and the clock reading taken for it as timestamp,
    under the id the store gave; an event whose query or add fails leaves
    nothing in the store. *)
Theorem processAll_one_block_per_event (calls : list (Env * JSON)) (w : World) :
  exists stored : list Doc,
    blockchain (processAll calls w) = (blockchain w ++ stored)%list
    /\ map (fun d => activity (snd d)) stored = map snd (filter storesBlock calls)
    /\ map (fun d => timestamp (snd d)) stored = readings calls
    /\ map (fun d => Fulfilled (fst d)) stored
       = map (fun c => addAnswer (fst c)) (filter storesBlock calls).
Proof.
  revert w. induction calls as [|[env act] calls IH]; intros w.
  - exists []. cbn. now rewrite app_nil_r.
  - cbn [processAll fold_left fst snd].
    destruct (IH (exec (createNewBlock env act) w)) as (stored & Hb & Ha & Ht & Hi).
    change (fold_left (fun w c => exec (createNewBlock (fst c) (snd c)) w) calls
                      (exec (createNewBlock env act) w))
      with (processAll calls (exec (createNewBlock env act) w)).
    assert (Hf : filter storesBlock ((env, act) :: calls)
                 = match getFault env, addAnswer env with
                   | None, Fulfilled _ => (env, act) :: filter storesBlock calls
                   | _, _ => filter storesBlock calls
                   end).
    { cbn [filter]. unfold storesBlock at 1. cbn [fst].
      destruct (getFault env); [reflexivity|]. destruct (addAnswer env); reflexivity. }
    rewrite Hb, createNewBlock_blockchain, readings_cons, Hf.
    destruct (getFault env) as [e|]; [exists stored; auto|].
    destruct (addAnswer env) as [id|e] eqn:Hans; [|exists stored; auto].
    exists ((id, blockFor (now env) act (blockchain w)) :: stored).
    rewrite <- app_assoc. cbn [map fst snd app]. rewrite Ha, Ht, Hi, Hans.
    auto.
Qed.

(** ** The file list of the dashboard *)

Section FileList.

Import Dashboard Frontend.

Lemma In_mapSet (m : FileMap) (n : string) (e : FileEntry) :
  NoDup (map fst m) ->
  forall k v, In (k, v) (mapSet n e m) <-> (k = n /\ v = e) \/ (k <> n /\ In (k, v) m).
Proof.
  induction m as [|[k0 v0] m IH]; intros Hnd k v; simpl.
  - split.
    + intros [E|[]]. injection E as <- <-. now left.
    + intros [[-> ->]|[_ []]]. now left.
  - inversion Hnd as [|? ? Hnot Hnd']; subst.
    destruct (String.eqb_spec k0 n) as [->|Hne]; simpl.
    + split.
      * intros [E|Hin]; [injection E as <- <-; now left|].
        right. split; [|now right].
        intros ->. apply Hnot. apply in_map_iff. now exists (n, v).
      * intros [[-> ->]|[Hk [E|Hin]]]; [now left | | now right].
        injection E as -> ->. contradiction.
    + rewrite (IH Hnd' k v). split.
      * intros [E|[[-> ->]|[Hk Hin]]]; [|now left|right; split; auto].
        injection E as <- <-. right. split; auto.
      * intros [[-> ->]|[Hk [E|Hin]]]; [right; now left | now left | right; right; now split].
Qed.

Lemma keys_mapSet_incl (m : FileMap) (n : string) (e : FileEntry) :
  forall k, In k (map fst (mapSet n e m)) <-> k = n \/ In k (map fst m).
Proof.
  induction m as [|[k0 v0] m IH]; intros k; simpl.
  - intuition.
  - destruct (String.eqb_spec k0 n) as [->|Hne]; simpl.
    + intuition.
    + rewrite IH. intuition.
Qed.

Lemma NoDup_mapSet (m : FileMap) (n : string) (e : FileEntry) :
  NoDup (map fst m) -> NoDup (map fst (mapSet n e m)).
Proof.
  induction m as [|[k0 v0] m IH]; intros Hnd; simpl.
  - constructor; [intros [] | constructor].
  - inversion Hnd as [|? ? Hnot Hnd']; subst.
    destruct (String.eqb_spec k0 n) as [->|Hne]; simpl.
    + now constructor.
    + constructor; [|now apply IH].
      rewrite keys_mapSet_incl. intros [->|Hin]; [now apply Hne | contradiction].
Qed.

Lemma In_mapDelete (m : FileMap) (n : string) :
  NoDup (map fst m) ->
  forall k v, In (k, v) (mapDelete n m) <-> k <> n /\ In (k, v) m.
Proof.
  induction m as [|[k0 v0] m IH]; intros Hnd k v; simpl; [tauto|].
  inversion Hnd as [|? ? Hnot Hnd']; subst.
  destruct (String.eqb_spec k0 n) as [->|Hne]; simpl.
  - split.
    + intros Hin. split; [|now right].
      intros ->. apply Hnot. apply in_map_iff. now exists (n, v).
    + intros [Hk [E|Hin]]; [|exact Hin]. injection E as -> ->. contradiction.
  - rewrite (IH Hnd' k v). split.
    + intros [E|[Hk Hin]]; [|split; auto].
      injection E as <- <-. split; auto.
    + intros [Hk [E|Hin]]; [now left | right; now split].
Qed.

Lemma NoDup_mapDelete (m : FileMap) (n : string) :
  NoDup (map fst m) -> NoDup (map fst (mapDelete n m)).
Proof.
  induction m as [|[k0 v0] m IH]; intros Hnd; simpl; [constructor|].
  inversion Hnd as [|? ? Hnot Hnd']; subst.
  destruct (String.eqb_spec k0 n) as [->|Hne]; simpl; [exact Hnd'|].
  constructor; [|now apply IH].
  intros Hin. apply Hnot. apply in_map_iff in Hin as ([k v] & <- & Hkv).
  apply In_mapDelete in Hkv as [_ Hkv]; [|exact Hnd'].
  apply in_map_iff. now exists (k, v).
Qed.

(** On a map without the key, deleting changes nothing. *)
Lemma mapDelete_absent (m : FileMap) (n : string) :
  ~ In n (map fst m) -> mapDelete n m = m.
Proof.
  induction m as [|[k0 v0] m IH]; intros Hnot; simpl; [reflexivity|].
  destruct (String.eqb_spec k0 n) as [->|Hne].
  - exfalso. apply Hnot. now left.
  - rewrite IH; [reflexivity|]. intros Hin. apply Hnot. now right.
Qed.

(** The three things one log entry can do to the map. *)
Lemma applyLog_cases (m : FileMap) (d : ActivityDoc) :
  (throwsb d = true /\ applyLog m d = None)
  \/ (exists name, uploadsb name d = true
                   /\ (forall k, touchesb k d = String.eqb name k)
                   /\ applyLog m d = Some (mapSet name (entryOf d name) m))
  \/ (exists name, deletesb name d = true
                   /\ (forall k, uploadsb k d = false)
                   /\ (forall k, touchesb k d = String.eqb name k)
                   /\ applyLog m d = Some (mapDelete name m))
  \/ ((forall k, touchesb k d = false) /\ throwsb d = false /\ applyLog m d = Some m).
Proof.
  unfold applyLog, throwsb, touchesb, uploadsb, deletesb, entryOf.
  destruct (getProp (snd d) "action") as [[| | |action| |]|]; auto.
  destruct (String.prefix "UPLOAD_FILE" action) eqn:Hp; cbn [negb andb orb].
  - destruct (getProp (snd d) "fileName") as [[| | |fileName| |]|]; auto.
    right. left. exists fileName. rewrite String.eqb_refl.
    split; [reflexivity|]. split; [|reflexivity].
    intros k. now rewrite orb_false_r.
  - destruct (String.eqb action "DELETE_FILE") eqn:Hd; cbn [andb].
    + destruct (getProp (snd d) "fileName") as [[| | |fileName| |]|];
        try (right; right; right; split; [reflexivity | split; reflexivity]).
      right. right. left. exists fileName. rewrite String.eqb_refl.
      repeat split; reflexivity.
    + right. right. right.
      destruct (getProp (snd d) "fileName") as [[| | |fileName| |]|];
        split; try reflexivity; split; reflexivity.
Qed.

Lemma applyLogs_snoc (logs : list ActivityDoc) (d : ActivityDoc) :
  forall m,
    applyLogs m (logs ++ [d])
    = match applyLogs m logs with
      | Some m' => applyLog m' d
      | None => None
      end.
Proof.
  induction logs as [|x logs IH]; intros m; simpl.
  - now destruct (applyLog m d).
  - destruct (applyLog m x); [apply IH | reflexivity].
Qed.

Lemma forallb_snoc {A} (f : A -> bool) (l : list A) (x : A) :
  forallb f (l ++ [x]) = forallb f l && f x.
Proof. rewrite forallb_app. simpl. now rewrite andb_true_r. Qed.

(** Extending the log by an entry that leaves [name] alone. *)
Lemma lastUploadedBy_untouched logs x name d :
  touchesb name x = false ->
  (lastUploadedBy (logs ++ [x]) name d <-> lastUploadedBy logs name d).
Proof.
  intros Hx. split.
  - intros (pre & post & E & Hu & Hpost).
    destruct post as [|y post] using rev_ind.
    + apply app_inj_tail in E as [_ <-].
      unfold touchesb in Hx. rewrite Hu in Hx. discriminate Hx.
    + clear IHpost. rewrite app_comm_cons, app_assoc in E.
      apply app_inj_tail in E as [-> <-].
      rewrite forallb_snoc in Hpost. apply andb_true_iff in Hpost as [Hpost _].
      now exists pre, post.
  - intros (pre & post & -> & Hu & Hpost).
    exists pre, (post ++ [x])%list. rewrite <- app_assoc. split; [reflexivity|].
    split; [exact Hu|]. rewrite forallb_snoc, Hpost, Hx. reflexivity.
Qed.

(** Extending the log by an entry that touches [name]: only that entry
    can be the last upload, and only if it is one. *)
Lemma lastUploadedBy_touched logs x name d :
  touchesb name x = true ->
  (lastUploadedBy (logs ++ [x]) name d <-> d = x /\ uploadsb name x = true).
Proof.
  intros Hx. split.
  - intros (pre & post & E & Hu & Hpost).
    destruct post as [|y post] using rev_ind.
    + apply app_inj_tail in E as [_ <-]. now split.
    + clear IHpost. rewrite app_comm_cons, app_assoc in E.
      apply app_inj_tail in E as [_ <-].
      rewrite forallb_snoc, Hx in Hpost. rewrite andb_false_r in Hpost. discriminate.
  - intros [-> Hu]. now exists logs, [].
Qed.

(** What the map holds after a log: for each name, the entry built from
    the last upload of that name, if nothing touched the name since. *)
Lemma applyLogs_holds (logs : list ActivityDoc) :
  forall m,
    applyLogs [] logs = Some m ->
    NoDup (map fst m)
    /\ forall name e,
         In (name, e) m <-> exists d, lastUploadedBy logs name d /\ e = entryOf d name.
Proof.
  induction logs as [|x logs IH] using rev_ind; intros m Hm.
  - injection Hm as <-. split; [constructor|].
    intros name e. split; [intros []|].
    intros (d & (pre & post & E & _) & _). destruct pre; discriminate E.
  - rewrite applyLogs_snoc in Hm.
    destruct (applyLogs [] logs) as [m0|]; [|discriminate Hm].
    destruct (IH m0 eq_refl) as [Hnd Hin].
    destruct (applyLog_cases m0 x)
      as [[_ E]|[(n & Hu & Ht & E)|[(n & Hd & Hnu & Ht & E)|(Ht & _ & E)]]];
      rewrite E in Hm; [discriminate Hm| | |]; injection Hm as <-.
    + split; [now apply NoDup_mapSet|]. intros name e.
      rewrite (In_mapSet m0 n _ Hnd). split.
      * intros [[-> ->]|[Hne H]].
        -- exists x. split; [|reflexivity].
           apply lastUploadedBy_touched; [|now split].
           now rewrite Ht, String.eqb_refl.
        -- apply Hin in H as (d & Hl & ->). exists d. split; [|reflexivity].
           apply lastUploadedBy_untouched; [|exact Hl].
           rewrite Ht. apply String.eqb_neq. congruence.
      * intros (d & Hl & ->).
        destruct (String.eqb_spec n name) as [->|Hne].
        -- apply lastUploadedBy_touched in Hl as [-> _];
             [now left | now rewrite Ht, String.eqb_refl].
        -- right. split; [congruence|]. apply Hin. exists d. split; [|reflexivity].
           eapply lastUploadedBy_untouched; [|exact Hl].
           rewrite Ht. now apply String.eqb_neq.
    + split; [now apply NoDup_mapDelete|]. intros name e.
      rewrite (In_mapDelete m0 n Hnd). split.
      * intros [Hne H]. apply Hin in H as (d & Hl & ->). exists d. split; [|reflexivity].
        apply lastUploadedBy_untouched; [|exact Hl].
        rewrite Ht. apply String.eqb_neq. congruence.
      * intros (d & Hl & ->).
        destruct (String.eqb_spec n name) as [->|Hne].
        -- apply lastUploadedBy_touched in Hl as [_ Hl];
             [|now rewrite Ht, String.eqb_refl].
           rewrite Hnu in Hl. discriminate Hl.
        -- split; [congruence|]. apply Hin. exists d. split; [|reflexivity].
           eapply lastUploadedBy_untouched; [|exact Hl].
           rewrite Ht. now apply String.eqb_neq.
    + split; [exact Hnd|]. intros name e. rewrite Hin.
      split; intros (d & Hl & ->); exists d; (split; [|reflexivity]).
      * apply lastUploadedBy_untouched; [apply Ht | exact Hl].
      * eapply lastUploadedBy_untouched; [apply Ht | exact Hl].
Qed.

(** Every entry of the map is filed under its own name. *)
Lemma applyLogs_names (logs : list ActivityDoc) (m : FileMap) :
  applyLogs [] logs = Some m -> map fst m = map file_name (mapValues m).
Proof.
  intros Hm. destruct (applyLogs_holds logs m Hm) as [_ Hin].
  unfold mapValues. rewrite map_map. apply map_ext_in.
  intros [k v] Hkv. apply Hin in Hkv as (d & _ & ->). reflexivity.
Qed.

End FileList.

Section FileListTheorems.

Import Dashboard Frontend.

Lemma values_mapDelete (m : FileMap) (n : string) :
  map fst m = map file_name (map snd m) ->
  NoDup (map fst m) ->
  map snd (mapDelete n m)
  = filter (fun g => negb (String.eqb (file_name g) n)) (map snd m).
Proof.
  induction m as [|[k v] m IH]; intros Hk Hnd; [reflexivity|].
  simpl in Hk. injection Hk as Hk0 Hk. inversion Hnd as [|? ? Hnot Hnd']; subst.
  cbn [mapDelete map snd filter].
  destruct (String.eqb_spec (file_name v) n) as [E|E]; cbn [negb].
  - rewrite <- (IH Hk Hnd'). rewrite mapDelete_absent; [reflexivity|].
    now rewrite <- E.
  - cbn [map snd]. now rewrite (IH Hk Hnd').
Qed.

Lemma replace_absent (l : list FileEntry) (n : string) (e : FileEntry) :
  ~ In n (map file_name l) ->
  map (fun g => if String.eqb (file_name g) n then e else g) l = l.
Proof.
  induction l as [|g l IH]; intros Hnot; [reflexivity|]. simpl.
  destruct (String.eqb_spec (file_name g) n) as [E|E].
  - exfalso. apply Hnot. now left.
  - f_equal. apply IH. intros H. apply Hnot. now right.
Qed.

Lemma values_mapSet (m : FileMap) (n : string) (e : FileEntry) :
  map fst m = map file_name (map snd m) ->
  NoDup (map fst m) ->
  map snd (mapSet n e m)
  = if existsb (String.eqb n) (map fst m)
    then map (fun g => if String.eqb (file_name g) n then e else g) (map snd m)
    else (map snd m ++ [e])%list.
Proof.
  induction m as [|[k v] m IH]; intros Hk Hnd; [reflexivity|].
  simpl in Hk. injection Hk as Hk0 Hk. inversion Hnd as [|? ? Hnot Hnd']; subst.
  cbn [mapSet map fst snd existsb].
  rewrite (String.eqb_sym n (file_name v)).
  destruct (String.eqb_spec (file_name v) n) as [E|E]; cbn [orb map snd].
  - f_equal. symmetry. apply replace_absent. now rewrite <- Hk, <- E.
  - rewrite (IH Hk Hnd').
    destruct (existsb (String.eqb n) (map fst m)); reflexivity.
Qed.

Lemma currentFiles_map (logs : list ActivityDoc) (files : list FileEntry) :
  currentFiles logs = Some files ->
  exists m, applyLogs [] logs = Some m /\ files = map snd m
            /\ map fst m = map file_name files /\ NoDup (map fst m).
Proof.
  unfold currentFiles. destruct (applyLogs [] logs) as [m|] eqn:Hm; [|discriminate].
  intros E. injection E as <-. exists m. split; [reflexivity|]. split; [reflexivity|].
  split; [now apply (applyLogs_names logs) | now apply (applyLogs_holds logs)].
Qed.

Lemma currentFiles_snoc (logs : list ActivityDoc) (d : ActivityDoc) (m : FileMap) :
  applyLogs [] logs = Some m ->
  currentFiles (logs ++ [d]) = option_map mapValues (applyLog m d).
Proof. intros Hm. unfold currentFiles. now rewrite applyLogs_snoc, Hm. Qed.

End FileListTheorems.

(** X8. When the derivation returns a list, no two of its files have the
    same name, and a file is on the list exactly when some entry of the
    log uploaded its name and no later entry uploaded or deleted that name;
    the file's id, type and timestamp are those of that last upload. *)
Theorem currentFiles_last_upload_wins
    (logs : list ActivityDoc) (files : list Dashboard.FileEntry) :
  Dashboard.currentFiles logs = Some files ->
  NoDup (map Dashboard.file_name files)
  /\ forall f : Dashboard.FileEntry,
       In f files
       <-> exists d, Frontend.lastUploadedBy logs (Dashboard.file_name f) d
                     /\ f = Frontend.entryOf d (Dashboard.file_name f).
Proof.
  intros H. destruct (currentFiles_map logs files H) as (m & Hm & -> & Hk & Hnd).
  destruct (applyLogs_holds logs m Hm) as [_ Hin].
  split; [now rewrite <- Hk|].
  intros f. split.
  - intros Hf. apply in_map_iff in Hf as ([k v] & <- & Hkv). cbn [snd].
    apply Hin in Hkv as (d & Hl & ->). now exists d.
  - intros (d & Hl & E). apply in_map_iff. exists (Dashboard.file_name f, f).
    split; [reflexivity|]. apply Hin. now exists d.
Qed.

(** X8 on sample data: upload, delete, upload again. *)
Lemma currentFiles_last_upload_wins_witness :
  let logs := [ ("e1", Sample.upload); ("e2", Sample.delete); ("e3", Sample.upload) ] in
  let f := Frontend.entryOf ("e3", Sample.upload) "a.txt" in
  Dashboard.currentFiles logs = Some [f]
  /\ NoDup (map Dashboard.file_name [f])
  /\ forall g : Dashboard.FileEntry,
       In g [f]
       <-> exists d, Frontend.lastUploadedBy logs (Dashboard.file_name g) d
                     /\ g = Frontend.entryOf d (Dashboard.file_name g).
Proof.
  intros logs f.
  assert (H : Dashboard.currentFiles logs = Some [f]) by reflexivity.
  split; [exact H|].
  exact (currentFiles_last_upload_wins logs [f] H).
Defined.

(** X9. The derivation throws, leaving the list as it was, exactly when
    the log holds an entry whose [action] is not a string, or an upload
    whose [fileName] is not a string; one such entry anywhere in the log is
    enough, whatever the other entries are. *)
Theorem currentFiles_throws_iff (logs : list ActivityDoc) :
  Dashboard.currentFiles logs = None <-> existsb Frontend.throwsb logs = true.
Proof.
  unfold Dashboard.currentFiles.
  generalize (@nil (string * Dashboard.FileEntry)) as m.
  induction logs as [|d logs IH]; intros m; simpl.
  - split; discriminate.
  - destruct (applyLog_cases m d)
      as [[Ht E]|[(n & Hu & _ & E)|[(n & Hd & _ & _ & E)|(_ & Ht & E)]]];
      rewrite E.
    + rewrite Ht. simpl. split; reflexivity.
    + assert (Ht : Frontend.throwsb d = false).
      { revert Hu. unfold Frontend.uploadsb, Frontend.throwsb.
        destruct (getProp (snd d) "action") as [[| | |a| |]|]; try discriminate.
        destruct (getProp (snd d) "fileName") as [[| | |fn| |]|]; try discriminate.
        now destruct (String.prefix "UPLOAD_FILE" a). }
      rewrite Ht. apply IH.
    + assert (Ht : Frontend.throwsb d = false).
      { revert Hd. unfold Frontend.deletesb, Frontend.throwsb.
        destruct (getProp (snd d) "action") as [[| | |a| |]|]; try discriminate.
        destruct (getProp (snd d) "fileName") as [[| | |fn| |]|]; try discriminate.
        now destruct (String.prefix "UPLOAD_FILE" a). }
      rewrite Ht. apply IH.
    + rewrite Ht. apply IH.
Qed.

(** A deletion entry at the end of the log removes the files of its name. *)
Lemma currentFiles_after_delete
    (user : Frontend.User) (f : Dashboard.FileEntry) (stamp : JSON)
    (logs : list ActivityDoc) (files : list Dashboard.FileEntry) (id : DocId) :
  Dashboard.currentFiles logs = Some files ->
  Dashboard.currentFiles (logs ++ [(id, Frontend.deletionEntry user f stamp)])
  = Some (filter (fun g => negb (String.eqb (Dashboard.file_name g)
                                            (Dashboard.file_name f)))
                 files).
Proof.
  intros H. destruct (currentFiles_map logs files H) as (m & Hm & -> & Hk & Hnd).
  rewrite (currentFiles_snoc logs _ m Hm).
  change (Dashboard.applyLog m (id, Frontend.deletionEntry user f stamp))
    with (Some (Dashboard.mapDelete (Dashboard.file_name f) m)).
  cbn [option_map]. unfold Dashboard.mapValues.
  now rewrite values_mapDelete.
Qed.

(** X10. [handleDelete] writes one entry to the log when the deletion is
    not subject to confirmation or the user confirms and the write
    succeeds, and none otherwise.  Once that entry is the last of the log
    the dashboard reads, the file list is the former list without the
    files of that name, the others unchanged and in the same order. *)
Theorem handleDelete_removes_file
    (user : Frontend.User) (f : Dashboard.FileEntry) (confirm answer : bool)
    (stamp : JSON) (added : Settled DocId) (p : Frontend.Page)
    (logs : list ActivityDoc) (files : list Dashboard.FileEntry) :
  Dashboard.currentFiles logs = Some files ->
  let p' := Frontend.handleDelete user f confirm answer stamp added p in
  let entry := Frontend.deletionEntry user f stamp in
  Frontend.written p'
  = (Frontend.written p
       ++ match added with
          | Fulfilled id => if confirm && negb answer then [] else [(id, entry)]
          | Rejected _ => []
          end)%list
  /\ forall id,
       Dashboard.currentFiles (logs ++ [(id, entry)])
       = Some (filter (fun g => negb (String.eqb (Dashboard.file_name g)
                                                 (Dashboard.file_name f)))
                      files).
Proof.
  intros H p' entry. split.
  - subst p'. unfold Frontend.handleDelete.
    destruct confirm, answer, added; cbn; now rewrite ?app_nil_r.
  - intros id. subst entry. now apply currentFiles_after_delete.
Qed.

(** X10 on sample data. *)
Lemma handleDelete_removes_file_witness :
  let user := Frontend.mkUser "u1" (JStr "a@b.c") in
  let logs := [ ("e1", Sample.upload) ] in
  let f := Frontend.entryOf ("e1", Sample.upload) "a.txt" in
  let entry := Frontend.deletionEntry user f (JNum 2000) in
  Dashboard.currentFiles logs = Some [f]
  /\ Frontend.written
       (Frontend.handleDelete user f true true (JNum 2000) (Fulfilled "e2")
                              (Frontend.mkPage logs []))
     = (logs ++ [("e2", entry)])%list
  /\ Dashboard.currentFiles (logs ++ [("e2", entry)]) = Some [].
Proof.
  intros user logs f entry.
  assert (H : Dashboard.currentFiles logs = Some [f]) by reflexivity.
  split; [exact H|].
  destruct (handleDelete_removes_file user f true true (JNum 2000) (Fulfilled "e2")
              (Frontend.mkPage logs []) logs [f] H) as [Hw Hc].
  split; [exact Hw | exact (Hc "e2")].
Defined.

(** X11. [handleUpload] writes nothing when it is called without file
    information or without a CDN URL (missing or empty); otherwise it
    writes one upload entry if the write succeeds.  Once that entry is the
    last of the log the dashboard reads, a name not yet listed is added at
    the end of the list and a name already listed keeps its place while
    its id and timestamp become those of the new entry; no other file
    changes. *)
Theorem handleUpload_lists_file
    (user : Frontend.User) (name cdnUrl : string)
    (stamp : JSON) (added : Settled DocId) (p : Frontend.Page)
    (logs : list ActivityDoc) (files : list Dashboard.FileEntry) :
  Dashboard.currentFiles logs = Some files ->
  let entry := Frontend.uploadEntry user name cdnUrl stamp in
  Frontend.handleUpload user None stamp added p = p
  /\ Frontend.handleUpload user (Some (Frontend.mkFileInfo name None)) stamp added p = p
  /\ Frontend.handleUpload user (Some (Frontend.mkFileInfo name (Some ""))) stamp added p = p
  /\ (cdnUrl <> "" ->
      Frontend.written
        (Frontend.handleUpload user (Some (Frontend.mkFileInfo name (Some cdnUrl)))
                               stamp added p)
      = (Frontend.written p
           ++ match added with
              | Fulfilled id => [(id, entry)]
              | Rejected _ => []
              end)%list)
  /\ forall id,
       let file := Dashboard.mkFile (JStr id) name (Dashboard.getFileType name)
                                    (Some stamp) in
       Dashboard.currentFiles (logs ++ [(id, entry)])
       = Some (if existsb (String.eqb name) (map Dashboard.file_name files)
               then map (fun g => if String.eqb (Dashboard.file_name g) name
                                  then file else g) files
               else (files ++ [file])%list).
Proof.
  intros H entry. split; [reflexivity|]. split; [reflexivity|]. split; [reflexivity|].
  split.
  - intros Hne. unfold Frontend.handleUpload.
    apply String.eqb_neq in Hne. rewrite Hne.
    destruct added; cbn; now rewrite ?app_nil_r.
  - intros id file.
    destruct (currentFiles_map logs files H) as (m & Hm & -> & Hk & Hnd).
    rewrite (currentFiles_snoc logs _ m Hm).
    change (Dashboard.applyLog m (id, entry))
      with (Some (Dashboard.mapSet name file m)).
    cbn [option_map]. unfold Dashboard.mapValues.
    rewrite values_mapSet by assumption. now rewrite Hk.
Qed.

(** X11 on sample data: a second upload of a listed name. *)
Lemma handleUpload_lists_file_witness :
  let user := Frontend.mkUser "u1" (JStr "a@b.c") in
  let logs := [ ("e1", Sample.upload) ] in
  let entry := Frontend.uploadEntry user "a.txt" "https://cdn/x" (JNum 3000) in
  Dashboard.currentFiles logs = Some [Frontend.entryOf ("e1", Sample.upload) "a.txt"]
  /\ Dashboard.currentFiles (logs ++ [("e2", entry)])
     = Some [Dashboard.mkFile (JStr "e2") "a.txt" Dashboard.doc (Some (JNum 3000))].
Proof.
  intros user logs entry.
  assert (H : Dashboard.currentFiles logs
              = Some [Frontend.entryOf ("e1", Sample.upload) "a.txt"]) by reflexivity.
  split; [exact H|].
  exact (proj2 (proj2 (proj2 (proj2
           (handleUpload_lists_file user "a.txt" "https://cdn/x" (JNum 3000)
              (Fulfilled "e2") (Frontend.mkPage logs []) logs _ H)))) "e2").
Defined.

(** X12. The assistant's [deleteFile] tool finds a file exactly when its
    name is on the list it was given.  For a listed name it writes, without
    asking for confirmation, the deletion entry of a file of that name, and
    once that entry is the last of the log the list no longer has the name;
    for a name that is not listed it writes nothing. *)
Theorem deleteFileTool_end_to_end
    (user : Frontend.User) (logs : list ActivityDoc) (files : list Dashboard.FileEntry)
    (fileName : string) (stamp : JSON) (id : DocId) (p : Frontend.Page) :
  Dashboard.currentFiles logs = Some files ->
  (In fileName (map Dashboard.file_name files) ->
   exists f,
     In f files /\ Dashboard.file_name f = fileName
     /\ Frontend.deleteFileTool user files fileName stamp (Fulfilled id) p
        = (true,
           Frontend.mkPage
             (Frontend.written p ++ [(id, Frontend.deletionEntry user f stamp)])%list
             (Frontend.notices p ++ [Frontend.DeletionLogged fileName])%list)
     /\ Dashboard.currentFiles (logs ++ [(id, Frontend.deletionEntry user f stamp)])
        = Some (filter (fun g => negb (String.eqb (Dashboard.file_name g) fileName))
                       files)
     /\ ~ In fileName
          (map Dashboard.file_name
               (filter (fun g => negb (String.eqb (Dashboard.file_name g) fileName))
                       files)))
  /\ (~ In fileName (map Dashboard.file_name files) ->
      forall added,
        Frontend.deleteFileTool user files fileName stamp added p = (false, p)).
Proof.
  intros H. split.
  - intros Hin. unfold Frontend.deleteFileTool.
    destruct (find (fun f => String.eqb (Dashboard.file_name f) fileName) files)
      as [f|] eqn:Hf.
    + apply find_some in Hf as [Hf Hn]. apply String.eqb_eq in Hn.
      exists f. split; [exact Hf|]. split; [exact Hn|]. split.
      * unfold Frontend.handleDelete. cbn. now rewrite Hn.
      * rewrite (currentFiles_after_delete user f stamp logs files id H), Hn.
        split; [reflexivity|].
        intros Hbad. apply in_map_iff in Hbad as (g & Hg & Hgin).
        apply filter_In in Hgin as [_ Hneq].
        rewrite Hg, String.eqb_refl in Hneq. discriminate Hneq.
    + exfalso. apply in_map_iff in Hin as (g & Hg & Hgin).
      pose proof (find_none _ _ Hf g Hgin) as Hno. cbn in Hno.
      rewrite Hg, String.eqb_refl in Hno. discriminate Hno.
  - intros Hnot added. unfold Frontend.deleteFileTool.
    destruct (find (fun f => String.eqb (Dashboard.file_name f) fileName) files)
      as [f|] eqn:Hf; [|reflexivity].
    apply find_some in Hf as [Hf Hn]. apply String.eqb_eq in Hn.
    exfalso. apply Hnot. apply in_map_iff. now exists f.
Qed.

(** X12 on sample data. *)
Lemma deleteFileTool_end_to_end_witness :
  let user := Frontend.mkUser "u1" (JStr "a@b.c") in
  let logs := [ ("e1", Sample.upload) ] in
  let f := Frontend.entryOf ("e1", Sample.upload) "a.txt" in
  Dashboard.currentFiles logs = Some [f]
  /\ Frontend.deleteFileTool user [f] "b.txt" (JNum 9) (Fulfilled "e2")
                             (Frontend.mkPage logs [])
     = (false, Frontend.mkPage logs []).
Proof.
  intros user logs f.
  assert (H : Dashboard.currentFiles logs = Some [f]) by reflexivity.
  split; [exact H|].
  apply (proj2 (deleteFileTool_end_to_end user logs [f] "b.txt" (JNum 9) "e2"
                  (Frontend.mkPage logs []) H)).
  intros [E|[]]. discriminate E.
Defined.

(** ** [getFileType] *)

Section FileTypes.

Import Dashboard Frontend.

Lemma split_nonempty (sep : ascii) (s : string) : split sep s <> [].
Proof.
  destruct s as [|c s]; simpl; [discriminate|].
  destruct (Ascii.eqb c sep); [discriminate|].
  destruct (split sep s); discriminate.
Qed.

Lemma split_at_sep (sep : ascii) (a b : string) :
  split sep (a ++ String sep b) = (split sep a ++ split sep b)%list.
Proof.
  induction a as [|c a IH]; simpl.
  - now rewrite Ascii.eqb_refl.
  - destruct (Ascii.eqb c sep); rewrite IH; [reflexivity|].
    destruct (split sep a) as [|part parts] eqn:E; [|reflexivity].
    now elim (split_nonempty sep a).
Qed.

Lemma pop_app (l1 l2 : list string) : l2 <> [] -> pop (l1 ++ l2) = pop l2.
Proof.
  unfold pop. intros Hne. induction l1 as [|x l1 IH]; [reflexivity|].
  simpl. rewrite IH. destruct (l1 ++ l2)%list eqn:E; [|reflexivity].
  apply app_eq_nil in E as [_ E]. contradiction.
Qed.

Lemma pop_map (f : string -> string) (l : list string) :
  l <> [] -> pop (map f l) = f (pop l).
Proof.
  unfold pop. induction l as [|x l IH]; intros Hne; [contradiction|].
  destruct l as [|y l]; [reflexivity|].
  change (last (map f (x :: y :: l)) EmptyString) with (last (map f (y :: l)) EmptyString).
  change (last (x :: y :: l) EmptyString) with (last (y :: l) EmptyString).
  apply IH. discriminate.
Qed.

Lemma lowerChar_dot (c : ascii) :
  Ascii.eqb (lowerChar c) "."%char = Ascii.eqb c "."%char.
Proof. destruct c as [[] [] [] [] [] [] [] []]; reflexivity. Qed.

Lemma lowerChar_idem (c : ascii) : lowerChar (lowerChar c) = lowerChar c.
Proof. destruct c as [[] [] [] [] [] [] [] []]; reflexivity. Qed.

Lemma toLowerCase_idem (s : string) : toLowerCase (toLowerCase s) = toLowerCase s.
Proof.
  induction s as [|c s IH]; simpl; [reflexivity|]. now rewrite lowerChar_idem, IH.
Qed.

Lemma split_toLowerCase (s : string) :
  split "."%char (toLowerCase s) = map toLowerCase (split "."%char s).
Proof.
  induction s as [|c s IH]; [reflexivity|].
  cbn [toLowerCase split]. rewrite lowerChar_dot, IH.
  destruct (Ascii.eqb c "."%char); [reflexivity|].
  destruct (split "."%char s); reflexivity.
Qed.

Lemma getFileType_lower (s : string) : getFileType (toLowerCase s) = getFileType s.
Proof.
  unfold getFileType. rewrite split_toLowerCase.
  rewrite pop_map by apply split_nonempty.
  now rewrite toLowerCase_idem.
Qed.

End FileTypes.

(** X13. Only what follows the last dot of a name decides its type:
    whatever precedes a dot is ignored, a name that ends with a dot is
    generic, and a name without any dot is judged as a whole, so that a
    file called [png] counts as an image. *)
Theorem getFileType_after_last_dot :
  (forall base rest : string,
      Dashboard.getFileType (base ++ String "."%char rest) = Dashboard.getFileType rest)
  /\ (forall base : string,
        Dashboard.getFileType (base ++ ".") = Dashboard.generic)
  /\ (forall name : string,
        Frontend.dotFree name = true ->
        Dashboard.pop (Dashboard.split "."%char name) = name)
  /\ Dashboard.getFileType "png" = Dashboard.image.
Proof.
  split; [|split; [|split]].
  - intros base rest. unfold Dashboard.getFileType.
    rewrite split_at_sep, pop_app by apply split_nonempty. reflexivity.
  - intros base. unfold Dashboard.getFileType.
    rewrite split_at_sep, pop_app by apply split_nonempty. reflexivity.
  - intros name. induction name as [|c name IH]; [reflexivity|].
    cbn [Frontend.dotFree Dashboard.split]. intros H.
    apply andb_true_iff in H as [Hc Hn]. apply negb_true_iff in Hc. rewrite Hc.
    specialize (IH Hn). unfold Dashboard.pop in *.
    destruct (Dashboard.split "."%char name) as [|part [|p2 parts]] eqn:E.
    + now elim (split_nonempty "."%char name).
    + cbn in *. now rewrite IH.
    + exfalso. clear IH Hc.
      revert part p2 parts E. induction name as [|c' name IHn]; intros part p2 parts E.
      * discriminate E.
      * cbn [Frontend.dotFree] in Hn. apply andb_true_iff in Hn as [Hc' Hn'].
        apply negb_true_iff in Hc'. cbn [Dashboard.split] in E. rewrite Hc' in E.
        destruct (Dashboard.split "."%char name) as [|q [|q2 qs]] eqn:E'.
        -- discriminate E.
        -- discriminate E.
        -- now apply (IHn Hn' q q2 qs).
  - reflexivity.
Qed.

(** X14. The type of a file does not depend on the case of its letters:
    two names that differ only in the case of ASCII letters get the same
    type. *)
Theorem getFileType_ignores_case (name1 name2 : string) :
  Dashboard.toLowerCase name1 = Dashboard.toLowerCase name2 ->
  Dashboard.getFileType name1 = Dashboard.getFileType name2.
Proof.
  intros E. rewrite <- (getFileType_lower name1), <- (getFileType_lower name2).
  now rewrite E.
Qed.

(** X14 on sample data. *)
Lemma getFileType_ignores_case_witness :
  Dashboard.toLowerCase "Report.PDF" = Dashboard.toLowerCase "report.pdf"
  /\ Dashboard.getFileType "Report.PDF" = Dashboard.getFileType "report.pdf".
Proof.
  assert (E : Dashboard.toLowerCase "Report.PDF" = Dashboard.toLowerCase "report.pdf")
    by reflexivity.
  split; [exact E|]. exact (getFileType_ignores_case "Report.PDF" "report.pdf" E).
Defined.

(** ** [ThemeToggle] *)

Section Theme.

Import ThemeToggle.

Lemma initialTheme_nonempty (b : Browser) : initialTheme b <> "".
Proof.
  unfold initialTheme. destruct (storedTheme b) as [s|]; [|discriminate].
  destruct (String.eqb_spec s ""); [discriminate | assumption].
Qed.

(** Every state the component reaches has a non-empty theme, which is
    what the store and the attribute hold. *)
Lemma clicks_in_step (b : Browser) (n : nat) :
  theme (clicks n (mount b)) <> ""
  /\ browser (clicks n (mount b)) = effect (theme (clicks n (mount b))).
Proof.
  induction n as [|n [IH1 IH2]].
  - split; [apply initialTheme_nonempty | reflexivity].
  - change (clicks (S n) (mount b)) with (onClick (clicks n (mount b))).
    generalize (clicks n (mount b)) as m. intros m.
    unfold onClick. cbn [theme browser]. split; [|reflexivity].
    destruct (String.eqb (theme m) "dark"); intros H; discriminate H.
Qed.

End Theme.

(** X15. The theme survives a reload: after any number of clicks, from
    whatever the browser held at first, [localStorage] and the
    [data-theme] attribute both hold the current theme, and mounting the
    component again on that browser gives the same theme and leaves the
    browser as it is. *)
Theorem theme_survives_reload (b : ThemeToggle.Browser) (n : nat) :
  let m := ThemeToggle.clicks n (ThemeToggle.mount b) in
  ThemeToggle.storedTheme (ThemeToggle.browser m) = Some (ThemeToggle.theme m)
  /\ ThemeToggle.dataTheme (ThemeToggle.browser m) = Some (ThemeToggle.theme m)
  /\ ThemeToggle.mount (ThemeToggle.browser m) = m.
Proof.
  cbv zeta. destruct (clicks_in_step b n) as [Hne Hb]. revert Hne Hb.
  generalize (ThemeToggle.clicks n (ThemeToggle.mount b)) as m.
  intros [t br] Hne Hb. cbn [ThemeToggle.theme ThemeToggle.browser] in *. subst br.
  split; [reflexivity|]. split; [reflexivity|].
  unfold ThemeToggle.mount, ThemeToggle.initialTheme.
  cbn [ThemeToggle.effect ThemeToggle.storedTheme].
  apply String.eqb_neq in Hne. now rewrite Hne.
Qed.

(** X16. From the first click on the theme is ["dark"] or ["light"] and
    alternates with every click.  The first click gives ["light"] exactly
    when the initial theme is ["dark"]: any other stored value, such as a
    name no longer in use, counts as light and is replaced by ["dark"];
    the button then offers the other mode. *)
Theorem theme_alternates (b : ThemeToggle.Browser) (n : nat) :
  let m := ThemeToggle.clicks (S n) (ThemeToggle.mount b) in
  ThemeToggle.theme m
  = (if Bool.eqb (String.eqb (ThemeToggle.initialTheme b) "dark") (Nat.even n)
     then "light" else "dark")
  /\ ThemeToggle.theme (ThemeToggle.onClick (ThemeToggle.onClick m)) = ThemeToggle.theme m
  /\ ThemeToggle.label m
     = (if String.eqb (ThemeToggle.theme m) "dark"
        then "Switch to Light Mode" else "Switch to Dark Mode").
Proof.
  cbv zeta.
  assert (H : ThemeToggle.theme (ThemeToggle.clicks (S n) (ThemeToggle.mount b))
              = (if Bool.eqb (String.eqb (ThemeToggle.initialTheme b) "dark") (Nat.even n)
                 then "light" else "dark")).
  { induction n as [|n IH].
    - cbn. destruct (String.eqb (ThemeToggle.initialTheme b) "dark"); reflexivity.
    - change (ThemeToggle.clicks (S (S n)) (ThemeToggle.mount b))
        with (ThemeToggle.onClick (ThemeToggle.clicks (S n) (ThemeToggle.mount b))).
      unfold ThemeToggle.onClick at 1. cbn [ThemeToggle.theme]. rewrite IH.
      rewrite Nat.even_succ, <- Nat.negb_even.
      destruct (String.eqb (ThemeToggle.initialTheme b) "dark"), (Nat.even n); reflexivity. }
  split; [exact H|]. split.
  - unfold ThemeToggle.onClick. cbn [ThemeToggle.theme]. rewrite H.
    destruct (Bool.eqb _ _); reflexivity.
  - unfold ThemeToggle.label. rewrite H. destruct (Bool.eqb _ _); reflexivity.
Qed.

(** ** Clearing on a store that may fail; the entry point *)

Section ClearingWithFaults.

Context {A : Type}.

Lemma clearCollectionWith_body (answers : list (option Error)) (c : Collection A) :
  clearCollectionWith answers c
  = match answerAt answers 0 with
    | Some e => (Rejected e, c)
    | None =>
        match limitGet 500 (documents c) with
        | [] => (Fulfilled tt,
                 mkCollection (documents c) (batches c)
                              (messages c ++ [LogAlreadyEmpty])%list)
        | d :: ds =>
            match answerAt answers 1 with
            | Some e => (Rejected e, c)
            | None =>
                let c' := mkCollection (deleteFirst 500 (documents c))
                            (batches c ++ [d :: ds])%list
                            (messages c ++ [LogCleared (List.length (d :: ds))])%list in
                if Nat.eqb (List.length (d :: ds)) 500
                then clearCollectionWith (skipn 2 answers) c'
                else (Fulfilled tt, c')
            end
        end
    end.
Proof.
  rewrite clearCollectionWith_equation_1.
  unfold clearCollectionWith_unfold_clause_1, inspect.
  destruct (limitGet 500 (documents c)); destruct (answerAt answers 0); reflexivity.
Qed.

Lemma answerAt_none (answers : list (option Error)) (i : nat) :
  Forall (fun a => a = None) answers -> answerAt answers i = None.
Proof.
  unfold answerAt. intros H. revert i.
  induction H as [|a l Ha H IH]; intros [|i]; simpl; auto.
Qed.

Lemma answerAt_in (answers : list (option Error)) (i : nat) (e : Error) :
  answerAt answers i = Some e -> In (Some e) answers.
Proof.
  unfold answerAt. intros H.
  destruct (Nat.lt_ge_cases i (List.length answers)) as [Hlt|Hge].
  - rewrite <- H. now apply nth_In.
  - rewrite nth_overflow in H by exact Hge. discriminate H.
Qed.

Lemma Forall_skipn {B} (P : B -> Prop) (n : nat) (l : list B) :
  Forall P l -> Forall P (skipn n l).
Proof.
  intros H. rewrite <- (firstn_skipn n l) in H. now apply Forall_app in H as [_ H].
Qed.

Lemma In_skipn {B} (x : B) (n : nat) (l : list B) : In x (skipn n l) -> In x l.
Proof.
  intros H. rewrite <- (firstn_skipn n l). apply in_or_app. now right.
Qed.

End ClearingWithFaults.

(** On a store that answers every request, [clearCollectionWith] is
    [clearCollection]: it fulfils and leaves what the fault-free function
    leaves. *)
Lemma clearCollectionWith_no_fault {A : Type}
    (answers : list (option Error)) (c : Collection A) :
  Forall (fun a => a = None) answers ->
  clearCollectionWith answers c = (Fulfilled tt, clearCollection c).
Proof.
  remember (List.length (documents c)) as n eqn:Hn.
  revert answers c Hn. induction n as [n IH] using lt_wf_ind. intros answers c Hn Hall.
  rewrite clearCollectionWith_body, clearCollection_body.
  rewrite !answerAt_none by exact Hall.
  destruct (limitGet 500 (documents c)) as [|d ds] eqn:E; [reflexivity|].
  cbv zeta. destruct (Nat.eqb (List.length (d :: ds)) 500); [|reflexivity].
  apply (IH (List.length (deleteFirst 500 (documents c)))).
  - rewrite length_deleteFirst.
    assert (documents c <> []).
    { intros Z. rewrite Z in E. discriminate E. }
    destruct (documents c); [contradiction|]. subst n. simpl. lia.
  - reflexivity.
  - now apply Forall_skipn.
Qed.

(** On sample data. *)
Lemma clearCollectionWith_no_fault_witness :
  clearCollectionWith [None; None] (mkCollection [1; 2; 3]%nat [] [])
  = (Fulfilled tt, clearCollection (mkCollection [1; 2; 3]%nat [] [])).
Proof.
  apply clearCollectionWith_no_fault. repeat constructor.
Defined.

(** A clearing rejects only with an error the store answered. *)
Lemma clearCollectionWith_rejected {A : Type}
    (answers : list (option Error)) (c : Collection A) (e : Error) :
  fst (clearCollectionWith answers c) = Rejected e -> In (Some e) answers.
Proof.
  remember (List.length (documents c)) as n eqn:Hn.
  revert answers c Hn. induction n as [n IH] using lt_wf_ind. intros answers c Hn.
  rewrite clearCollectionWith_body.
  destruct (answerAt answers 0) as [e0|] eqn:E0.
  { cbn. intros He. injection He as <-. now apply (answerAt_in answers 0). }
  destruct (limitGet 500 (documents c)) as [|d ds] eqn:E; [discriminate|].
  destruct (answerAt answers 1) as [e1|] eqn:E1.
  { cbn. intros He. injection He as <-. now apply (answerAt_in answers 1). }
  cbv zeta.
  pose proof (length_limitGet 500 (documents c)) as Lp. rewrite E in Lp.
  pose proof (length_deleteFirst 500 (documents c)) as Lr.
  destruct (Nat.eqb (List.length (d :: ds)) 500) eqn:Efull; [|discriminate].
  apply Nat.eqb_eq in Efull. intros He. apply (In_skipn _ 2).
  refine (IH (List.length (deleteFirst 500 (documents c))) _ _ _ _ He).
  - cbn [List.length] in *. lia.
  - reflexivity.
Qed.

(** X17. Whatever the store answers, a clearing loses track of nothing:
    the batches committed, in order, followed by the documents left, are
    the documents the collection had.  When the call fulfils, nothing is
    left.  When it rejects, it rejects with an error the store answered,
    and the clearing stopped there: pages committed before stay deleted,
    the others are still in the collection. *)
Theorem clearCollectionWith_accounts_for_all {A : Type}
    (answers : list (option Error)) (c : Collection A) :
  exists pages : list (list A),
    batches (snd (clearCollectionWith answers c)) = (batches c ++ pages)%list
    /\ (List.concat pages ++ documents (snd (clearCollectionWith answers c)))%list
       = documents c
    /\ (fst (clearCollectionWith answers c) = Fulfilled tt ->
        documents (snd (clearCollectionWith answers c)) = [])
    /\ (forall e, fst (clearCollectionWith answers c) = Rejected e ->
                  In (Some e) answers).
Proof.
  remember (List.length (documents c)) as n eqn:Hn.
  revert answers c Hn. induction n as [n IH] using lt_wf_ind. intros answers c Hn.
  rewrite clearCollectionWith_body.
  destruct (answerAt answers 0) as [e0|] eqn:E0.
  { exists []. cbn. rewrite app_nil_r. repeat split; try discriminate.
    intros e He. injection He as <-. now apply (answerAt_in answers 0). }
  destruct (limitGet 500 (documents c)) as [|d ds] eqn:E.
  { exists []. cbn. rewrite app_nil_r. repeat split; try discriminate.
    intros _. apply length_zero_iff_nil.
    apply (f_equal (@List.length A)) in E. rewrite length_limitGet in E.
    cbn [List.length] in E. lia. }
  destruct (answerAt answers 1) as [e1|] eqn:E1.
  { exists []. cbn. rewrite app_nil_r. repeat split; try discriminate.
    intros e He. injection He as <-. now apply (answerAt_in answers 1). }
  cbv zeta.
  pose proof (limitGet_deleteFirst 500 (documents c)) as Hsplit. rewrite E in Hsplit.
  pose proof (length_limitGet 500 (documents c)) as Lp. rewrite E in Lp.
  pose proof (length_deleteFirst 500 (documents c)) as Lr.
  destruct (Nat.eqb (List.length (d :: ds)) 500) eqn:Efull.
  - apply Nat.eqb_eq in Efull.
    destruct (IH (List.length (deleteFirst 500 (documents c)))
                 ltac:(cbn [List.length] in *; lia)
                 (skipn 2 answers)
                 (mkCollection (deleteFirst 500 (documents c))
                    (batches c ++ [d :: ds])%list
                    (messages c ++ [LogCleared (List.length (d :: ds))])%list)
                 eq_refl)
      as (pages & Hb & Hcat & Hok & Herr).
    cbn [documents batches] in Hb, Hcat.
    exists ((d :: ds) :: pages). split; [|split; [|split]].
    + rewrite Hb, <- app_assoc. reflexivity.
    + cbn [List.concat]. rewrite <- app_assoc, Hcat. exact Hsplit.
    + exact Hok.
    + intros e He. eapply In_skipn. apply (Herr e He).
  - apply Nat.eqb_neq in Efull.
    assert (Hrest : deleteFirst 500 (documents c) = []).
    { apply length_zero_iff_nil. cbn [List.length] in *. lia. }
    exists [d :: ds]. cbn [fst snd documents batches List.concat].
    rewrite Hrest, !app_nil_r. rewrite Hrest, app_nil_r in Hsplit.
    repeat split; try discriminate. exact Hsplit.
Qed.

(** X18. Started with [--clear] among its arguments the script never
    attaches the listener: it exits with code 0 or 1; with code 0 and
    both collections empty, every document in a committed batch, when the
    store answers every request; with code 1 only if the store answered
    some request of either clearing with an error.  Started without it,
    the script clears nothing and stays listening on the store as it
    is. *)
Theorem mainScript_clear_or_listen
    (argv : list string) (answersBlockchain answersLogs : list (option Error))
    (store : list Doc) (activityLogs : list ActivityDoc) :
  let r := mainScript argv answersBlockchain answersLogs store activityLogs in
  (In "--clear" argv ->
   (exitCode r = Some 0%Z \/ exitCode r = Some 1%Z)
   /\ (Forall (fun a => a = None) answersBlockchain ->
       Forall (fun a => a = None) answersLogs ->
       exists b l, r = ExitedCleared b l /\ documents b = [] /\ documents l = []
                   /\ List.concat (batches b) = store
                   /\ List.concat (batches l) = activityLogs)
   /\ (exitCode r = Some 1%Z ->
       exists e, In (Some e) answersBlockchain \/ In (Some e) answersLogs))
  /\ (~ In "--clear" argv ->
      exitCode r = None
      /\ exists p, r = Listening p /\ tasks p = [] /\ blockchain (world p) = store).
Proof.
  cbv zeta. unfold mainScript. split.
  - intros Hin.
    assert (E : existsb (String.eqb "--clear") argv = true).
    { apply existsb_exists. exists "--clear". split; [exact Hin | apply String.eqb_refl]. }
    rewrite E.
    pose proof (clearCollectionWith_rejected answersBlockchain
                  (mkCollection store [] [])) as Hberr.
    pose proof (clearCollectionWith_rejected answersLogs
                  (mkCollection activityLogs [] [])) as Hlerr.
    split; [|split].
    + destruct (clearCollectionWith answersBlockchain _) as [[[]|eb] b];
        destruct (clearCollectionWith answersLogs _) as [[[]|el] l]; cbn; auto.
    + intros Hab Hal.
      rewrite (clearCollectionWith_no_fault answersBlockchain _ Hab).
      rewrite (clearCollectionWith_no_fault answersLogs _ Hal).
      do 2 eexists. split; [reflexivity|].
      destruct (clearCollection_result (mkCollection store [] [])) as [Hbd Hbc].
      destruct (clearCollection_result (mkCollection activityLogs [] [])) as [Hld Hlc].
      cbn [documents batches List.concat app] in Hbc, Hlc.
      now repeat split.
    + destruct (clearCollectionWith answersBlockchain _) as [[[]|eb] b];
        destruct (clearCollectionWith answersLogs _) as [[[]|el] l]; cbn;
        intros Hc; try discriminate Hc.
      * exists el. right. now apply Hlerr.
      * exists eb. left. now apply Hberr.
      * exists eb. left. now apply Hberr.
  - intros Hnot.
    assert (E : existsb (String.eqb "--clear") argv = false).
    { apply not_true_is_false. intros H. apply existsb_exists in H as (x & Hx & Hxe).
      apply String.eqb_eq in Hxe. subst x. contradiction. }
    rewrite E. split; [reflexivity|]. eexists. split; [reflexivity|]. now split.
Qed.
